(** * gpytorch: the structured multivariate normal and the variational ELBO

    A shallow embedding of
    - [gpytorch/distributions/multivariate_normal.py]
      ([_MultivariateNormalBase], [kl_mvn_mvn]) and
    - [gpytorch/mlls/_approximate_mll.py]
      ([_ApproximateMarginalLogLikelihood.forward]).

    Tensors are a shape together with an entry function; Python exceptions
    are values of [PyError] threaded through the [result] monad; floating
    point scalars are an abstract type [F] with the operations the source
    uses, instantiated with the real numbers for concrete evaluations. *)

From Stdlib Require Import List ZArith Lia Bool Arith Reals Lra.
Import ListNotations.

(** ** Exceptions and the error monad *)

Inductive PyError : Type :=
| NotImplementedError         (* raise NotImplementedError() *)
| AttributeError              (* reading an attribute that was never assigned *)
| BaseSamplesSizeError (expected actual : list nat)
    (* RuntimeError("The size of base_samples ... Expected ...{} but got {}") *)
| IncompatibleDimensionError  (* RuntimeError("Incompatible dimension of `base_samples`") *)
| OnlyScalarsError            (* RuntimeError("Can only multiply by scalars") *)
| UnsupportedAdditionError    (* RuntimeError("Unsupported type {} for addition ...") *)
| BroadcastError              (* shapes that cannot be broadcast together *)
| TorchError                  (* a failing torch call: view, expand, permute, cat *)
| OperatorError               (* a failing structured-operator call *)
| BaseClassError              (* a failing call into torch's MultivariateNormal *)
| ZeroDivisionError
| TypeError
| IndexError
| ValueError                  (* a sample rejected by argument validation *)
| AmbiguousTruthError         (* bool() of a tensor with several entries *)
| OverflowError               (* a float operation whose result is out of range *)
| LongOverflowError           (* RuntimeError("Overflow when unpacking long") *)
| DanglingReference.          (* model only: a reference outside the object store *)

Inductive result (A : Type) : Type :=
| Ok (a : A)
| Err (e : PyError).
Arguments Ok {A} a.
Arguments Err {A} e.

Definition bind {A B : Type} (m : result A) (k : A -> result B) : result B :=
  match m with
  | Ok a => k a
  | Err e => Err e
  end.

Definition lift {A : Type} (e : PyError) (o : option A) : result A :=
  match o with
  | Some a => Ok a
  | None => Err e
  end.

Declare Scope py_scope.
Delimit Scope py_scope with py.
Notation "x <- m ;; k" := (bind m (fun x => k))
  (at level 61, m at next level, right associativity) : py_scope.
Notation "' pat <- m ;; k" := (bind m (fun x => match x with pat => k end))
  (at level 61, pat pattern, m at next level, right associativity) : py_scope.
Open Scope py_scope.

(** ** Shapes ([torch.Size]) and Python slicing *)

Definition Shape := list nat.

Definition numel (s : Shape) : nat := fold_right Nat.mul 1 s.

(** [l[-n:]] for [n >= 1]. *)
Definition lastn {A : Type} (n : nat) (l : list A) : list A :=
  skipn (length l - n) l.

(** [l[-k:]] for any [k >= 0]: Python reads [l[-0:]] as [l[0:]]. *)
Definition py_slice_from_neg {A : Type} (k : nat) (l : list A) : list A :=
  if k =? 0 then l else lastn k l.

(** [l[:z]] for an integer [z] of either sign. *)
Definition py_slice_to {A : Type} (z : Z) (l : list A) : list A :=
  if (z <? 0)%Z then firstn (length l - Z.to_nat (- z)) l
  else firstn (Z.to_nat z) l.

(** [l[:-1]] and [l[:-2]]. *)
Definition drop_last1 {A : Type} (l : list A) : list A := removelast l.
Definition drop_last2 {A : Type} (l : list A) : list A := removelast (removelast l).

(** [l[-1]] and [l[-2]], which raise [IndexError] on short lists. *)
Definition index_neg1 (l : Shape) : result nat :=
  match rev l with
  | x :: _ => Ok x
  | [] => Err IndexError
  end.

Definition index_neg2 (l : Shape) : result nat :=
  match rev l with
  | _ :: x :: _ => Ok x
  | _ => Err IndexError
  end.

Fixpoint shape_eqb (a b : Shape) : bool :=
  match a, b with
  | [], [] => true
  | x :: a', y :: b' => (x =? y) && shape_eqb a' b'
  | _, _ => false
  end.

Fixpoint zip_with {A B C : Type} (f : A -> B -> C) (a : list A) (b : list B) : list C :=
  match a, b with
  | x :: a', y :: b' => f x y :: zip_with f a' b'
  | _, _ => []
  end.

(** Broadcasting of two shapes, aligned at the trailing dimension. *)
Fixpoint broadcast_rev (a b : Shape) : option Shape :=
  match a, b with
  | [], _ => Some b
  | _, [] => Some a
  | x :: a', y :: b' =>
      match broadcast_rev a' b' with
      | None => None
      | Some r =>
          if x =? y then Some (x :: r)
          else if x =? 1 then Some (y :: r)
          else if y =? 1 then Some (x :: r)
          else None
      end
  end.

Definition broadcast_shapes (a b : Shape) : option Shape :=
  option_map (@rev nat) (broadcast_rev (rev a) (rev b)).

(** Modelled from the spec: [gpytorch.utils.broadcasting._mul_broadcast_shape]
    is not among the source files.  The spec describes it as the broadcast of
    two batch shapes, failing when they are not broadcast-compatible. *)
Definition _mul_broadcast_shape (a b : Shape) : result Shape :=
  lift BroadcastError (broadcast_shapes a b).

(** Row-major offset of an index and its inverse. *)
Fixpoint ravel (s : Shape) (idx : list nat) : nat :=
  match s, idx with
  | _ :: s', i :: idx' => i * numel s' + ravel s' idx'
  | _, _ => 0
  end.

Fixpoint unravel (s : Shape) (k : nat) : list nat :=
  match s with
  | [] => []
  | _ :: s' => k / numel s' :: unravel s' (k mod numel s')
  end.

(** An index addresses an entry of a tensor of shape [s]. *)
Definition valid_index (s : Shape) (idx : list nat) : Prop :=
  Forall2 (fun i n => i < n) idx s.

(** The index read in an operand of shape [s] when the broadcast result is
    read at [idx]: the trailing components, pinned to 0 on dimensions of
    size 1. *)
Definition bindex (s : Shape) (idx : list nat) : list nat :=
  rev (zip_with (fun n i => if n =? 1 then 0 else i) (rev s) (rev idx)).

(** The index read in a tensor of shape [s] when one of its tilings is read
    at [idx]: the trailing components, modulo the sizes of [s]. *)
Definition tile_index (s : Shape) (idx : list nat) : list nat :=
  rev (zip_with (fun n i => i mod n) (rev s) (rev idx)).

(** ** Scalars *)

Class Scalar (F : Type) : Type := {
  f_of_Z : Z -> F;          (* an int used in float arithmetic *)
  fadd : F -> F -> F;
  fsub : F -> F -> F;
  fmul : F -> F -> F;
  fdiv : F -> F -> F;
  fneg : F -> F;
  fsqrt : F -> F;
  flog : F -> F;
  fpi : F;                  (* math.pi *)
  feqb : F -> F -> bool     (* == *)
}.

Section Tensors.

Context {F : Type} {SF : Scalar F}.

Definition fzero : F := f_of_Z 0.
Definition fone : F := f_of_Z 1.
(** The float literal [0.5]. *)
Definition fhalf : F := fdiv fone (f_of_Z 2).

Definition fsum (l : list F) : F := fold_left fadd l fzero.

(** ** Tensors *)

Record Tensor : Type := mkTensor {
  shape : Shape;
  entry : list nat -> F
}.

Definition dim (t : Tensor) : nat := length (shape t).

(** Equality of tensors: same shape, same entry at every index of the shape. *)
Definition teq (a b : Tensor) : Prop :=
  shape a = shape b /\
  forall idx, valid_index (shape a) idx -> entry a idx = entry b idx.

(** A Python number seen as a 0-dimensional tensor. *)
Definition scalar_tensor (x : F) : Tensor := mkTensor [] (fun _ => x).

(** All indices of a shape, in row-major order. *)
Definition indices (s : Shape) : list (list nat) :=
  map (unravel s) (seq 0 (numel s)).

(** Element-wise binary operation with broadcasting. *)
Definition tbinop (f : F -> F -> F) (a b : Tensor) : result Tensor :=
  s <- lift BroadcastError (broadcast_shapes (shape a) (shape b)) ;;
  Ok (mkTensor s (fun idx =>
        f (entry a (bindex (shape a) idx)) (entry b (bindex (shape b) idx)))).

Definition tadd := tbinop fadd.
Definition tsub := tbinop fsub.

(** [a.add_(b)]: in place, so the result keeps the shape of [a]. *)
Definition tadd_ (a b : Tensor) : result Tensor :=
  s <- lift BroadcastError (broadcast_shapes (shape a) (shape b)) ;;
  if shape_eqb s (shape a)
  then Ok (mkTensor (shape a) (fun idx =>
             fadd (entry a idx) (entry b (bindex (shape b) idx))))
  else Err BroadcastError.

(** Tensor times / divided by a Python number. *)
Definition tscale (t : Tensor) (c : F) : Tensor :=
  mkTensor (shape t) (fun idx => fmul (entry t idx) c).

(** A Python number times a tensor, as in [-0.5 * res]. *)
Definition tscale_l (c : F) (t : Tensor) : Tensor :=
  mkTensor (shape t) (fun idx => fmul c (entry t idx)).

Definition tdiv (t : Tensor) (c : F) : Tensor :=
  mkTensor (shape t) (fun idx => fdiv (entry t idx) c).

Definition zeros_like (t : Tensor) : Tensor :=
  mkTensor (shape t) (fun _ => fzero).

(** [t.expand(s)]. *)
Definition texpand (t : Tensor) (s : Shape) : result Tensor :=
  match broadcast_shapes (shape t) s with
  | Some s' =>
      if shape_eqb s' s
      then Ok (mkTensor s (fun idx => entry t (bindex (shape t) idx)))
      else Err TorchError
  | None => Err TorchError
  end.

(** [t.repeat(sizes...)]: the tensor is tiled [sizes] times along each
    dimension, after padding its shape with leading 1s. *)
Definition pad_shape (n : nat) (s : Shape) : Shape := repeat 1 (n - length s) ++ s.

Definition trepeat (t : Tensor) (sizes : list nat) : result Tensor :=
  if length sizes <? dim t then Err TorchError
  else
    let padded := pad_shape (length sizes) (shape t) in
    Ok (mkTensor (zip_with Nat.mul sizes padded)
          (fun idx => entry t (tile_index (shape t) idx))).

(** [t.unsqueeze(-1)] and [t.unsqueeze(0)]. *)
Definition unsqueeze_last (t : Tensor) : Tensor :=
  mkTensor (shape t ++ [1]) (fun idx => entry t (removelast idx)).

Definition unsqueeze_first (t : Tensor) : Tensor :=
  mkTensor (1 :: shape t) (fun idx => entry t (tl idx)).

(** [t.view(s)]: same entries in row-major order. *)
Definition view (t : Tensor) (s : Shape) : result Tensor :=
  if numel s =? numel (shape t)
  then Ok (mkTensor s (fun idx => entry t (unravel (shape t) (ravel s idx))))
  else Err TorchError.

(** [t.view(-1, *s)]. *)
Definition view_infer (t : Tensor) (s : Shape) : result Tensor :=
  if numel s =? 0 then Err TorchError
  else if numel (shape t) mod numel s =? 0
       then view t (numel (shape t) / numel s :: s)
       else Err TorchError.

(** Position of [k] in a permutation. *)
Fixpoint index_of (k : nat) (p : list nat) : nat :=
  match p with
  | [] => 0
  | x :: p' => if x =? k then 0 else S (index_of k p')
  end.

Definition is_permutation (p : list nat) : bool :=
  forallb (fun k => existsb (Nat.eqb k) p) (seq 0 (length p)).

(** [t.permute(p...)] with the dimensions already counted from the front. *)
Definition permute (t : Tensor) (p : list nat) : result Tensor :=
  if (length p =? dim t) && is_permutation p
  then Ok (mkTensor (map (fun k => nth k (shape t) 0) p)
             (fun idx => entry t
                (map (fun k => nth (index_of k p) idx 0) (seq 0 (dim t)))))
  else Err TorchError.

(** [t[..., :r, :]]. *)
Definition slice_rows (r : nat) (t : Tensor) : result Tensor :=
  match rev (shape t) with
  | c :: n :: b => Ok (mkTensor (rev b ++ [Nat.min r n; c]) (entry t))
  | _ => Err IndexError
  end.

(** [torch.cat([a, b], -1)]. *)
Definition cat_last (a b : Tensor) : result Tensor :=
  match rev (shape a), rev (shape b) with
  | ca :: ra, cb :: rb =>
      if shape_eqb ra rb
      then Ok (mkTensor (rev ra ++ [ca + cb])
                 (fun idx =>
                    let j := last idx 0 in
                    if j <? ca then entry a idx
                    else entry b (removelast idx ++ [j - ca])))
      else Err TorchError
  | _, _ => Err TorchError
  end.

(** [t.sum()] and [t.sum(-1)]. *)
Definition tsum (t : Tensor) : Tensor :=
  scalar_tensor (fsum (map (entry t) (indices (shape t)))).

Definition tsum_last (t : Tensor) : result Tensor :=
  n <- index_neg1 (shape t) ;;
  Ok (mkTensor (removelast (shape t))
        (fun idx => fsum (map (fun j => entry t (idx ++ [j])) (seq 0 n)))).

(** Python's [sum(xs)]: a left fold of [+] starting from the int [0]. *)
Fixpoint py_sum_from (acc : Tensor) (xs : list Tensor) : result Tensor :=
  match xs with
  | [] => Ok acc
  | x :: xs' => acc' <- tadd acc x ;; py_sum_from acc' xs'
  end.

Definition py_sum (xs : list Tensor) : result Tensor :=
  py_sum_from (scalar_tensor fzero) xs.

End Tensors.

Arguments Tensor : clear implicits.

(** The range of Python's floats: [x ** 2] raises [OverflowError] when the
    square of [x] is out of range. *)
Class FloatRange (F : Type) : Type := {
  square_overflows : F -> bool
}.

(** The Python ints that torch takes as a number: the signed 64-bit range. *)
Definition fits_int64 (z : Z) : bool := ((- 2 ^ 63 <=? z) && (z <? 2 ^ 63))%Z.

(** ** The structured linear operator ([gpytorch.lazy.LazyTensor])

    The operator library is an external collaborator of the two source
    files: its methods are the fields of an interface.  A method that raises
    returns [None]. *)

(** Standard normal draws, addressed like the entries of a tensor. *)
Definition Noise (F : Type) : Type := list nat -> F.

Class LazyTensor (F : Type) {SF : Scalar F} (L : Type) : Type := {
  lt_shape : L -> Shape;                     (* .shape *)
  lt_dense : L -> Tensor F;                  (* the matrix the operator stands for *)
  lt_evaluate : L -> Tensor F + L;           (* .evaluate(), which may stay lazy *)
  lt_expand : L -> Shape -> option L;        (* .expand(shape) *)
  lt_repeat : L -> list nat -> option L;     (* .repeat(sizes...) *)
  lt_inv_quad_logdet : L -> Tensor F -> option (Tensor F * Tensor F);
                                 (* .inv_quad_logdet(inv_quad_rhs=., logdet=True) *)
  lt_logdet : L -> option (Tensor F);        (* .logdet() *)
  lt_root : L -> option L;                   (* .root_decomposition().root *)
  lt_matmul : L -> Tensor F -> option (Tensor F);      (* .matmul(tensor) *)
  lt_zero_mean_mvn_samples : L -> nat -> Noise F -> option (Tensor F);
  lt_mul : L -> F -> L;                      (* operator * number *)
  lt_add : L -> L -> option L;               (* operator + operator *)
  lazify : Tensor F -> L
}.

Section Model.

Context {F : Type} {SF : Scalar F} {L : Type} {LT : LazyTensor F L}.

(** ** [_MultivariateNormalBase] *)

(** The [covariance_matrix] argument of the constructor. *)
Inductive Covariance : Type :=
| DenseCov (t : Tensor F)
| LazyCov (l : L).

(** The attributes of an instance that the methods below read.  The mean is
    a tensor; the memoised Cholesky factor and the other lazy properties are
    caches of values computed from these attributes and are not stored. *)
Record MultivariateNormal : Type := mkMVN {
  _islazy : bool;
  loc : Tensor F;
  _covar : option L;        (* assigned on the structured path of [__init__] only *)
  covariance_param : option (Tensor F);
                            (* the base class's [covariance_matrix] on the dense path *)
  _validate_args : bool;
  batch_shape : Shape;
  event_shape : Shape
}.

(** The base class [torch.distributions.MultivariateNormal]: its constructor
    (returning [loc], [covariance_matrix], [batch_shape], [event_shape]), its
    dense [log_prob] and [_validate_sample]. *)
Class TorchMVN : Type := {
  base_init : Tensor F -> Tensor F -> bool -> option (Tensor F * Tensor F * Shape * Shape);
  base_log_prob : MultivariateNormal -> Tensor F -> option (Tensor F);
  base_validate_sample : MultivariateNormal -> Tensor F -> bool
}.

Context {TB : TorchMVN}.

Definition __init__ (mean : Tensor F) (covariance_matrix : Covariance)
    (validate_args : bool) : result MultivariateNormal :=
  match covariance_matrix with
  | LazyCov l =>
      if validate_args then Err NotImplementedError
      else
        bs <- _mul_broadcast_shape (drop_last1 (shape mean)) (drop_last2 (lt_shape l)) ;;
        Ok (mkMVN true mean (Some l) None validate_args bs (lastn 1 (shape mean)))
  | DenseCov t =>
      ' (loc', cov', bs, es) <- lift BaseClassError (base_init mean t validate_args) ;;
      Ok (mkMVN false loc' None (Some cov') validate_args bs es)
  end.

(** [self.mean] is the base class's property returning [self.loc]. *)
Definition mean (d : MultivariateNormal) : Tensor F := loc d.

Definition expand (d : MultivariateNormal) (batch_size : Shape) : result MultivariateNormal :=
  new_loc <- texpand (loc d) (batch_size ++ lastn 1 (shape (loc d))) ;;
  covar <- lift AttributeError (_covar d) ;;
  new_covar <- lift OperatorError
                 (lt_expand covar (batch_size ++ lastn 2 (lt_shape covar))) ;;
  __init__ new_loc (LazyCov new_covar) false.

Definition covariance_matrix (d : MultivariateNormal) : result (Tensor F + L) :=
  if _islazy d then covar <- lift AttributeError (_covar d) ;; Ok (lt_evaluate covar)
  else t <- lift AttributeError (covariance_param d) ;; Ok (inl t).

Definition lazy_covariance_matrix (d : MultivariateNormal) : result L :=
  if _islazy d then lift AttributeError (_covar d)
  else t <- lift AttributeError (covariance_param d) ;; Ok (lazify t).


(** Python's [//] on sizes. *)
Definition floordiv (a b : nat) : result nat :=
  if b =? 0 then Err ZeroDivisionError else Ok (a / b).

Fixpoint zip_floordiv (a b : list nat) : result (list nat) :=
  match a, b with
  | x :: a', y :: b' =>
      q <- floordiv x y ;;
      r <- zip_floordiv a' b' ;;
      Ok (q :: r)
  | _, _ => Ok []
  end.

(** The block of [log_prob] under "Repeat the covar to match the batch shape
    of diff". *)
Definition match_batch_shape (diff : Tensor F) (covar : L) : result (Tensor F * L) :=
  if negb (shape_eqb (drop_last1 (shape diff)) (drop_last2 (lt_shape covar)))
  then
    if length (drop_last1 (shape diff)) <? length (drop_last2 (lt_shape covar))
    then
      diff' <- texpand diff (drop_last1 (lt_shape covar)) ;;
      Ok (diff', covar)
    else
      let padded_batch_shape :=
        repeat 1 (dim diff + 1 - length (lt_shape covar)) ++ drop_last2 (lt_shape covar) in
      factors <- zip_floordiv (drop_last1 (shape diff)) padded_batch_shape ;;
      covar' <- lift OperatorError (lt_repeat covar (factors ++ [1; 1])) ;;
      Ok (diff, covar')
  else Ok (diff, covar).

(** [math.log(2 * math.pi)]. *)
Definition log_2pi : F := flog (fmul (f_of_Z 2) fpi).


(** [rsample] with [base_samples], in three parts.  First the block under
    "If necessary, adjust base_samples for rank of root decomposition". *)
Definition adjust_for_rank (covar_root : L) (base_samples : Tensor F)
    : result (Tensor F) :=
  rank <- index_neg1 (lt_shape covar_root) ;;
  rows <- index_neg2 (shape base_samples) ;;
  if rank <? rows then slice_rows rank base_samples
  else if rows <? rank then Err IncompatibleDimensionError
  else Ok base_samples.

(** From [covar_root.matmul(base_samples)] to the returned tensor. *)
Definition apply_root (d : MultivariateNormal) (sample_shape : Shape)
    (covar_root : L) (base_samples : Tensor F) : result (Tensor F) :=
  res <- lift OperatorError (lt_matmul covar_root base_samples) ;;
  res <- tadd res (unsqueeze_last (loc d)) ;;
  res <- permute res ((dim res - 1) :: seq 0 (dim (loc d))) ;;
  view res (sample_shape ++ shape (loc d)).

(** Everything after the check of the size of [base_samples]. *)
Definition reparameterize (d : MultivariateNormal) (covar : L)
    (base_samples : Tensor F) : result (Tensor F) :=
  let sample_shape :=
    py_slice_to (Z.of_nat (dim base_samples) - Z.of_nat (dim (loc d)))
                (shape base_samples) in
  base_samples <- view_infer base_samples (shape (loc d)) ;;
  base_samples <- permute base_samples (seq 1 (dim (loc d)) ++ [0]) ;;
  covar_root <- lift OperatorError (lt_root covar) ;;
  base_samples <- adjust_for_rank covar_root base_samples ;;
  apply_root d sample_shape covar_root base_samples.

Definition rsample (d : MultivariateNormal) (sample_shape : Shape)
    (base_samples : option (Tensor F)) (noise : Noise F) : result (Tensor F) :=
  covar <- lazy_covariance_matrix d ;;
  match base_samples with
  | None =>
      let num_samples := if numel sample_shape =? 0 then 1 else numel sample_shape in
      z <- lift OperatorError (lt_zero_mean_mvn_samples covar num_samples noise) ;;
      res <- tadd z (unsqueeze_first (loc d)) ;;
      view res (sample_shape ++ shape (loc d))
  | Some base_samples =>
      if negb (shape_eqb (shape (loc d))
                 (py_slice_from_neg (dim (loc d)) (shape base_samples)))
      then Err (BaseSamplesSizeError (shape (loc d)) (shape base_samples))
      else reparameterize d covar base_samples
  end.

(** [sample] is [rsample] under [torch.no_grad()]. *)
Definition sample (d : MultivariateNormal) (sample_shape : Shape)
    (base_samples : option (Tensor F)) (noise : Noise F) : result (Tensor F) :=
  rsample d sample_shape base_samples noise.

(** *** Arithmetic: objects with identity

    [__radd__] and [__mul__] can return [self], so the arithmetic methods
    work on references into a store of instances; constructing an instance
    allocates a fresh reference. *)

Definition Ref := nat.
Definition Heap := list MultivariateNormal.

(** The Python values an operand can be; [PyOther] stands for objects without
    arithmetic (None, str, list, dict). *)
Inductive PyVal : Type :=
| PyInt (z : Z)
| PyBool (b : bool)
| PyFloat (x : F)
| PyTensor (t : Tensor F)
| PyMVN (r : Ref)
| PyOther.

Definition deref (h : Heap) (r : Ref) : result MultivariateNormal :=
  lift DanglingReference (nth_error h r).

(** [self.__class__(mean, covariance_matrix)]. *)
Definition new_instance (h : Heap) (mean : Tensor F) (covariance_matrix : Covariance)
    : result (Ref * Heap) :=
  d <- __init__ mean covariance_matrix false ;;
  Ok (length h, h ++ [d]).

(** [isinstance(other, int) or isinstance(other, float)]; [bool] is a
    subclass of [int]. *)
Definition is_scalar (other : PyVal) : bool :=
  match other with
  | PyInt _ | PyBool _ | PyFloat _ => true
  | _ => false
  end.

Definition int_of_bool (b : bool) : Z := if b then 1%Z else 0%Z.

Definition scalar_value (other : PyVal) : F :=
  match other with
  | PyInt z => f_of_Z z
  | PyBool b => f_of_Z (int_of_bool b)
  | PyFloat x => x
  | _ => fzero
  end.

(** [other == k] for an int literal [k]. *)
Definition py_eq_int (other : PyVal) (k : Z) : result bool :=
  match other with
  | PyInt z => Ok (z =? k)%Z
  | PyBool b => Ok (int_of_bool b =? k)%Z
  | PyFloat x => Ok (feqb x (f_of_Z k))
  | PyTensor t =>
      if numel (shape t) =? 1
      then Ok (feqb (entry t (unravel (shape t) 0)) (f_of_Z k))
      else Err AmbiguousTruthError
  | PyMVN _ | PyOther => Ok false
  end.

Context {FR : FloatRange F}.

(** [other ** 2] for a scalar: exact on ints, [OverflowError] on a float
    whose square is out of range. *)
Definition py_square (other : PyVal) : result PyVal :=
  match other with
  | PyInt z => Ok (PyInt (z * z))
  | PyBool b => Ok (PyInt (int_of_bool b * int_of_bool b))
  | PyFloat x =>
      if square_overflows x then Err OverflowError else Ok (PyFloat (fmul x x))
  | v => Ok v
  end.

(** The Python number [other] as the operand of a tensor operation
    ([tensor + other], [tensor * other]): torch refuses an int outside the
    signed 64-bit range. *)
Definition torch_number (other : PyVal) : result F :=
  match other with
  | PyInt z => if fits_int64 z then Ok (f_of_Z z) else Err LongOverflowError
  | v => Ok (scalar_value v)
  end.

(** [1.0 / other]. *)
Definition py_one_over (other : PyVal) : result PyVal :=
  match other with
  | PyInt z =>
      if (z =? 0)%Z then Err ZeroDivisionError
      else Ok (PyFloat (fdiv fone (f_of_Z z)))
  | PyBool b =>
      if b then Ok (PyFloat (fdiv fone (f_of_Z 1))) else Err ZeroDivisionError
  | PyFloat x =>
      if feqb x fzero then Err ZeroDivisionError else Ok (PyFloat (fdiv fone x))
  | PyTensor t => Ok (PyTensor (mkTensor (shape t) (fun idx => fdiv fone (entry t idx))))
  | PyMVN _ | PyOther => Err TypeError
  end.

Definition __add__ (h : Heap) (self : Ref) (other : PyVal) : result (Ref * Heap) :=
  d <- deref h self ;;
  match other with
  | PyMVN r =>
      o <- deref h r ;;
      m <- tadd (mean d) (mean o) ;;
      c1 <- lazy_covariance_matrix d ;;
      c2 <- lazy_covariance_matrix o ;;
      c <- lift OperatorError (lt_add c1 c2) ;;
      new_instance h m (LazyCov c)
  | PyInt _ | PyBool _ | PyFloat _ =>
      x <- torch_number other ;;
      m <- tadd (mean d) (scalar_tensor x) ;;
      c <- lazy_covariance_matrix d ;;
      new_instance h m (LazyCov c)
  | _ => Err UnsupportedAdditionError
  end.

Definition __radd__ (h : Heap) (self : Ref) (other : PyVal) : result (Ref * Heap) :=
  is_zero <- py_eq_int other 0 ;;
  if is_zero then Ok (self, h)
  else __add__ h self other.

Definition __mul__ (h : Heap) (self : Ref) (other : PyVal) : result (Ref * Heap) :=
  if negb (is_scalar other) then Err OnlyScalarsError
  else
    is_one <- py_eq_int other 1 ;;
    if is_one then Ok (self, h)
    else
      d <- deref h self ;;
      x <- torch_number other ;;
      let m := tscale (mean d) x in
      c <- lazy_covariance_matrix d ;;
      squared <- py_square other ;;
      new_instance h m (LazyCov (lt_mul c (scalar_value squared))).

Definition __truediv__ (h : Heap) (self : Ref) (other : PyVal) : result (Ref * Heap) :=
  r <- py_one_over other ;;
  __mul__ h self r.

(** ** [kl_mvn_mvn], registered for a pair of [MultivariateNormal] *)

Definition kl_mvn_mvn (p_dist q_dist : MultivariateNormal) : result (Tensor F) :=
  output_shape <- _mul_broadcast_shape (batch_shape p_dist) (batch_shape q_dist) ;;
  p_dist <- (if negb (shape_eqb output_shape (batch_shape p_dist))
             then expand p_dist output_shape else Ok p_dist) ;;
  q_dist <- (if negb (shape_eqb output_shape (batch_shape q_dist))
             then expand q_dist output_shape else Ok q_dist) ;;
  let q_mean := loc q_dist in
  q_covar <- lazy_covariance_matrix q_dist ;;
  let p_mean := loc p_dist in
  p_covar <- lazy_covariance_matrix p_dist ;;
  root <- lift OperatorError (lt_root p_covar) ;;
  let root_p_covar := lt_evaluate root in
  mean_diffs <- tsub p_mean q_mean ;;
  let root_p_covar :=
    match root_p_covar with
    | inr l => lt_evaluate l
    | inl t => inl t
    end in
  inv_quad_rhs <- match root_p_covar with
                  | inl t => cat_last (unsqueeze_last mean_diffs) t
                  | inr _ => Err TypeError
                  end ;;
  logdet_p_covar <- lift OperatorError (lt_logdet p_covar) ;;
  ' (trace_plus_inv_quad_form, logdet_q_covar) <-
      lift OperatorError (lt_inv_quad_logdet q_covar inv_quad_rhs) ;;
  n <- index_neg1 (shape mean_diffs) ;;
  s <- py_sum [logdet_q_covar; tscale logdet_p_covar (f_of_Z (-1));
               trace_plus_inv_quad_form;
               scalar_tensor (fneg (f_of_Z (Z.of_nat n)))] ;;
  Ok (tscale_l fhalf s).

(** ** [_ApproximateMarginalLogLikelihood] *)

(** What [forward] reads of the model: the two distributions of its
    variational strategy and the values [loss()] of its added loss terms. *)
Record ApproximateGP : Type := {
  prior_distribution : MultivariateNormal;
  variational_distribution : MultivariateNormal;
  added_loss_terms : list (Tensor F)
}.

Record ApproximateMarginalLogLikelihood : Type := {
  _log_likelihood_term : MultivariateNormal -> Tensor F -> result (Tensor F);
                             (* the abstract hook of the subclass *)
  model : ApproximateGP;
  named_priors : list (Tensor F); (* [prior.log_prob(closure())] of each named prior *)
  num_data : Z;
  beta : F;
  combine_terms : bool
}.

Definition _kl_divergence (self : ApproximateMarginalLogLikelihood) : result (Tensor F) :=
  kl_mvn_mvn (variational_distribution (model self)) (prior_distribution (model self)).

(** A loop of [acc.add_(x)]. *)
Fixpoint accumulate (acc : Tensor F) (xs : list (Tensor F)) : result (Tensor F) :=
  match xs with
  | [] => Ok acc
  | x :: xs' => acc' <- tadd_ acc x ;; accumulate acc' xs'
  end.

(** [forward] returns a tensor or a tuple of tensors. *)
Inductive ForwardResult : Type :=
| Combined (t : Tensor F)
| Terms (ts : list (Tensor F)).

Definition forward (self : ApproximateMarginalLogLikelihood)
    (approximate_dist_f : MultivariateNormal) (target : Tensor F) : result ForwardResult :=
  let num_batch := numel (event_shape approximate_dist_f) in
  ll <- _log_likelihood_term self approximate_dist_f target ;;
  let log_likelihood := tdiv ll (f_of_Z (Z.of_nat num_batch)) in
  kl <- _kl_divergence self ;;
  scale <- (if feqb (beta self) fzero then Err ZeroDivisionError
            else Ok (fdiv (f_of_Z (num_data self)) (beta self))) ;;
  let kl_divergence := tdiv kl scale in
  kl_divergence <-
    (if numel (shape log_likelihood) =? 1 then Ok (tsum kl_divergence)
     else if dim log_likelihood <? dim kl_divergence then tsum_last kl_divergence
     else Ok kl_divergence) ;;
  added_loss <- accumulate (zeros_like log_likelihood) (added_loss_terms (model self)) ;;
  let had_added_losses :=
    match added_loss_terms (model self) with [] => false | _ => true end in
  log_prior <- accumulate (zeros_like log_likelihood)
                 (map (fun lp => tdiv (tsum lp) (f_of_Z (num_data self)))
                      (named_priors self)) ;;
  if combine_terms self
  then
    a <- tsub log_likelihood kl_divergence ;;
    b <- tadd a log_prior ;;
    c <- tsub b added_loss ;;
    Ok (Combined c)
  else
    if had_added_losses
    then Ok (Terms [log_likelihood; kl_divergence;
                    tdiv log_prior (f_of_Z (num_data self)); added_loss])
    else Ok (Terms [log_likelihood; kl_divergence;
                    tdiv log_prior (f_of_Z (num_data self))]).

End Model.

Arguments MultivariateNormal F L : clear implicits.
Arguments Covariance F L : clear implicits.
Arguments TorchMVN F L : clear implicits.
Arguments PyVal F : clear implicits.
Arguments ApproximateGP F L : clear implicits.
Arguments ApproximateMarginalLogLikelihood F L : clear implicits.
Arguments ForwardResult F : clear implicits.

(** ** Contracts

    The arithmetic facts about scalars and the contracts of the operator
    library that the properties below rely on. *)

Class ScalarLaws (F : Type) {SF : Scalar F} : Prop := {
  fadd_0_l : forall x : F, fadd fzero x = x;
  fmul_1_r : forall x : F, fmul x fone = x;
  feqb_eq : forall x y : F, feqb x y = true -> x = y
}.

(** The shape of a (batch of) square matrices, and of a batch of [n x m]
    matrices. *)
Definition square_shape (s : Shape) : Prop :=
  exists b n, s = b ++ [n; n].

Class LazyTensorLaws (F : Type) {SF : Scalar F} (L : Type) {LT : LazyTensor F L}
    : Prop := {
  lt_dense_shape : forall l : L, shape (lt_dense l) = lt_shape l;
  lazify_shape : forall t : Tensor F, lt_shape (lazify t) = shape t;
  lazify_dense : forall t : Tensor F, teq (lt_dense (lazify t)) t;
  lt_mul_shape : forall (l : L) (c : F), lt_shape (lt_mul l c) = lt_shape l;
  lt_mul_dense : forall (l : L) (c : F),
      teq (lt_dense (lt_mul l c)) (tscale (lt_dense l) c);
  lt_repeat_shape : forall (l l' : L) sizes,
      lt_repeat l sizes = Some l' ->
      lt_shape l' = zip_with Nat.mul sizes (pad_shape (length sizes) (lt_shape l));
  lt_repeat_dense : forall (l l' : L) sizes,
      lt_repeat l sizes = Some l' ->
      exists t, trepeat (lt_dense l) sizes = Ok t /\ teq (lt_dense l') t;
  lt_inv_quad_logdet_shape : forall (l : L) rhs iq ld,
      lt_inv_quad_logdet l rhs = Some (iq, ld) ->
      shape iq = drop_last2 (lt_shape l) /\ shape ld = drop_last2 (lt_shape l);
  lt_logdet_shape : forall (l : L) ld,
      lt_logdet l = Some ld -> shape ld = drop_last2 (lt_shape l);
  lt_zero_mean_mvn_samples_shape : forall (l : L) b n num noise,
      lt_shape l = b ++ [n; n] ->
      exists t, lt_zero_mean_mvn_samples l num noise = Some t /\
                shape t = num :: b ++ [n];
  lt_root_shape : forall (l : L) b n,
      lt_shape l = b ++ [n; n] ->
      exists r k, lt_root l = Some r /\ lt_shape r = b ++ [n; k];
  lt_matmul_shape : forall (r : L) (x : Tensor F) b bx bb n m k,
      lt_shape r = b ++ [n; m] -> shape x = bx ++ [m; k] ->
      broadcast_shapes b bx = Some bb ->
      exists t, lt_matmul r x = Some t /\ shape t = bb ++ [n; k]
}.

(** ** The real numbers as scalars

    [sqrt] is 0 on a negative number, where torch's square root is not a
    number: a property that reads a square root asks its argument not to be
    negative. *)

Definition Req_bool (x y : R) : bool := if Req_dec_T x y then true else false.

#[export] Instance RScalar : Scalar R := {|
  f_of_Z := IZR;
  fadd := Rplus;
  fsub := Rminus;
  fmul := Rmult;
  fdiv := Rdiv;
  fneg := Ropp;
  fsqrt := sqrt;
  flog := ln;
  fpi := PI;
  feqb := Req_bool
|}.

(** The real numbers have no largest number. *)
#[export] Instance RFloatRange : FloatRange R := {|
  square_overflows := fun _ => false
|}.

(** ** A dense operator

    Modelled from the spec: the structured-operator library is not among the
    source files.  [DenseOperator] realises the operator interface the spec
    describes (root factor, fused inverse quadratic form and log
    determinant, sampling, expand, repeat, arithmetic) for a matrix held
    densely, through its Cholesky factor. *)

Section DenseOperator.

Context {F : Type} {SF : Scalar F}.

Definition to_option {A : Type} (r : result A) : option A :=
  match r with
  | Ok a => Some a
  | Err _ => None
  end.

(** Columns [0 .. j-1] of the Cholesky factor of the matrix [a]. *)
Fixpoint chol_cols (a : nat -> nat -> F) (j : nat) : list (nat -> F) :=
  match j with
  | 0 => []
  | S j' =>
      let cols := chol_cols a j' in
      let dot i := fsum (map (fun c : nat -> F => fmul (c i) (c j')) cols) in
      let pivot := fsqrt (fsub (a j' j') (dot j')) in
      cols ++ [fun i => if i <? j' then fzero
                        else if i =? j' then pivot
                        else fdiv (fsub (a i j') (dot i)) pivot]
  end.

Definition chol (a : nat -> nat -> F) (n i j : nat) : F :=
  nth j (chol_cols a n) (fun _ => fzero) i.

(** Forward substitution: the first [n] entries of the solution of [l y = v]
    for a lower triangular [l]. *)
Fixpoint solve_lower (l : nat -> nat -> F) (v : nat -> F) (n : nat) : list F :=
  match n with
  | 0 => []
  | S n' =>
      let ys := solve_lower l v n' in
      ys ++ [fdiv (fsub (v n')
                     (fsum (map (fun k => fmul (l n' k) (nth k ys fzero)) (seq 0 n'))))
                  (l n' n')]
  end.

(** The matrix at batch index [b] of a tensor of matrices. *)
Definition matrix_at (t : Tensor F) (b : list nat) (i j : nat) : F :=
  entry t (b ++ [i; j]).

(** The Cholesky factor of every matrix of the batch. *)
Definition dense_cholesky (l : Tensor F) : option (Tensor F) :=
  match rev (shape l) with
  | n2 :: n1 :: _ =>
      if n1 =? n2
      then Some (mkTensor (shape l) (fun idx =>
                   let b := removelast (removelast idx) in
                   chol (matrix_at l b) n1
                        (last (removelast idx) 0) (last idx 0)))
      else None
  | _ => None
  end.

Definition dense_logdet (l : Tensor F) : option (Tensor F) :=
  match rev (shape l) with
  | n2 :: n1 :: b =>
      if n1 =? n2
      then Some (mkTensor (rev b) (fun idx =>
                   fmul (fsum (map (fun i => flog (chol (matrix_at l idx) n1 i i))
                                   (seq 0 n1)))
                        (f_of_Z 2)))
      else None
  | _ => None
  end.

Definition dense_inv_quad_logdet (l rhs : Tensor F) : option (Tensor F * Tensor F) :=
  match rev (shape l), rev (shape rhs), dense_logdet l with
  | n2 :: n1 :: b, k :: m :: br, Some ld =>
      if (n1 =? n2) && (m =? n1) && shape_eqb b br
      then Some (mkTensor (rev b) (fun idx =>
                   fsum (map (fun c =>
                           fsum (map (fun y => fmul y y)
                                   (solve_lower (chol (matrix_at l idx) n1)
                                      (fun i => entry rhs (idx ++ [i; c])) n1)))
                           (seq 0 k))),
                 ld)
      else None
  | _, _, _ => None
  end.

(** [torch.matmul] of two (batches of) matrices. *)
Definition dense_matmul (l x : Tensor F) : option (Tensor F) :=
  match rev (shape l), rev (shape x) with
  | m :: n :: bl, k :: m' :: bx =>
      if m =? m'
      then match broadcast_shapes (rev bl) (rev bx) with
           | Some bb =>
               Some (mkTensor (bb ++ [n; k]) (fun idx =>
                  let b := removelast (removelast idx) in
                  let i := last (removelast idx) 0 in
                  let j := last idx 0 in
                  fsum (map (fun c =>
                          fmul (entry l (bindex (rev bl) b ++ [i; c]))
                               (entry x (bindex (rev bx) b ++ [c; j])))
                          (seq 0 m))))
           | None => None
           end
      else None
  | _, _ => None
  end.

(** [num] draws with covariance [l]: the Cholesky factor applied to standard
    normal noise. *)
Definition dense_zero_mean_mvn_samples (l : Tensor F) (num : nat) (noise : Noise F)
    : option (Tensor F) :=
  match rev (shape l), dense_cholesky l with
  | n2 :: n1 :: b, Some root =>
      Some (mkTensor (num :: rev b ++ [n1]) (fun idx =>
              let s := hd 0 idx in
              let bi := removelast (tl idx) in
              let i := last idx 0 in
              fsum (map (fun c => fmul (entry root (bi ++ [i; c]))
                                       (noise (s :: bi ++ [c])))
                        (seq 0 n1))))
  | _, _ => None
  end.

(** The library's [repeat] only tiles batch dimensions. *)
Definition dense_repeat (l : Tensor F) (sizes : list nat) : option (Tensor F) :=
  match rev sizes with
  | 1 :: 1 :: _ :: _ => to_option (trepeat l sizes)
  | _ => None
  end.

#[export] Instance DenseOperator : LazyTensor F (Tensor F) := {|
  lt_shape := shape;
  lt_dense := fun l => l;
  lt_evaluate := fun l => inl l;
  lt_expand := fun l s => to_option (texpand l s);
  lt_repeat := dense_repeat;
  lt_inv_quad_logdet := dense_inv_quad_logdet;
  lt_logdet := dense_logdet;
  lt_root := dense_cholesky;
  lt_matmul := dense_matmul;
  lt_zero_mean_mvn_samples := dense_zero_mean_mvn_samples;
  lt_mul := tscale;
  lt_add := fun a b => to_option (tadd a b);
  lazify := fun t => t
|}.

(** A stand-in for the dense base class, used to evaluate the model on
    concrete inputs: the constructor broadcasts [loc] and the covariance to
    the common batch shape, and [log_prob] is the dense formula.  It is
    meant for positive definite covariances of dense-mode instances: the
    constructor does not factorise the covariance as torch's does, and
    [log_prob] reads the dense covariance only. *)
Definition simple_base_init (mean cov : Tensor F) (validate_args : bool)
    : option (Tensor F * Tensor F * Shape * Shape) :=
  match broadcast_shapes (drop_last1 (shape mean)) (drop_last2 (shape cov)) with
  | Some bs =>
      match texpand mean (bs ++ lastn 1 (shape mean)),
            texpand cov (bs ++ lastn 2 (shape cov)) with
      | Ok loc', Ok cov' => Some (loc', cov', bs, lastn 1 (shape mean))
      | _, _ => None
      end
  | None => None
  end.

Definition simple_base_log_prob (d : MultivariateNormal F (Tensor F)) (value : Tensor F)
    : option (Tensor F) :=
  match covariance_param d, tsub value (loc d) with
  | Some cov, Ok diff =>
      match dense_inv_quad_logdet cov (unsqueeze_last diff) with
      | Some (m, ld) =>
          Some (mkTensor (shape m) (fun idx =>
                  fsub (fmul (fneg fhalf)
                          (fadd (fmul (f_of_Z (Z.of_nat (numel (event_shape d)))) log_2pi)
                                (entry m idx)))
                       (fmul fhalf (entry ld idx))))
      | None => None
      end
  | _, _ => None
  end.

Definition simple_validate_sample (d : MultivariateNormal F (Tensor F)) (value : Tensor F)
    : bool :=
  shape_eqb (lastn 1 (shape value)) (event_shape d).

#[export] Instance SimpleTorch : TorchMVN F (Tensor F) := {|
  base_init := simple_base_init;
  base_log_prob := simple_base_log_prob;
  base_validate_sample := simple_validate_sample
|}.

(** Tensors written out: a vector, a constant tensor of a given shape. *)
Definition vector (l : list F) : Tensor F :=
  mkTensor [length l] (fun idx => nth (hd 0 idx) l fzero).

Definition full (s : Shape) (x : F) : Tensor F := mkTensor s (fun _ => x).

(** A batch of identity matrices, of shape [b ++ [n; n]]. *)
Definition eye (b : Shape) (n : nat) : Tensor F :=
  mkTensor (b ++ [n; n]) (fun idx =>
    if last (removelast idx) 0 =? last idx 0 then fone else fzero).

End DenseOperator.

(** ** Vocabulary of the properties *)

Section Vocabulary.

Context {F : Type} {SF : Scalar F} {L : Type} {LT : LazyTensor F L}.

(** What a constructor establishes: the covariance operator is available and
    its batch shape broadcasts with the batch shape of the mean. *)
Definition well_formed (d : MultivariateNormal F L) : Prop :=
  exists covar,
    lazy_covariance_matrix d = Ok covar /\
    _mul_broadcast_shape (drop_last1 (shape (loc d))) (drop_last2 (lt_shape covar))
      = Ok (batch_shape d) /\
    event_shape d = lastn 1 (shape (loc d)).


(** The mean and the covariance both carry the batch shape [b], around an
    event of size [n]. *)
Definition full_batch (d : MultivariateNormal F L) (covar : L) (b : Shape) (n : nat)
    : Prop :=
  lazy_covariance_matrix d = Ok covar /\
  shape (loc d) = b ++ [n] /\
  lt_shape covar = b ++ [n; n].

(** A result that is not the size error of [rsample]'s base samples. *)
Definition no_size_error {A : Type} (r : result A) : Prop :=
  forall e a, r <> Err (BaseSamplesSizeError e a).

(** The same objective with the other setting of [combine_terms]. *)
Definition with_combine_terms (self : ApproximateMarginalLogLikelihood F L) (b : bool)
    : ApproximateMarginalLogLikelihood F L :=
  {| _log_likelihood_term := _log_likelihood_term self;
     model := model self;
     named_priors := named_priors self;
     num_data := num_data self;
     beta := beta self;
     combine_terms := b |}.

Context {FR : FloatRange F}.

(** The numbers that torch and Python's [**] accept in [A * c]: a bool, a
    float whose square is in range, an int whose square fits in 64 bits (and
    which then fits itself). *)
Definition accepted_number (c : PyVal F) : Prop :=
  match c with
  | PyInt z => fits_int64 (z * z) = true
  | PyFloat x => square_overflows x = false
  | _ => True
  end.

(** The square of a Python number, as a scalar: exact on ints. *)
Definition square_of (c : PyVal F) : F :=
  match c with
  | PyInt z => f_of_Z (z * z)
  | PyBool b => f_of_Z (int_of_bool b * int_of_bool b)
  | PyFloat x => fmul x x
  | _ => fzero
  end.

End Vocabulary.

(** ** Concrete inputs, over the real numbers and the dense operator *)

Module Examples.

Open Scope R_scope.

Definition MVN : Type := MultivariateNormal R (Tensor R).

(** The standard normal [N([0], [[1]])] and [N([1], [[1]])], structured. *)
Definition p_std : MVN :=
  mkMVN true (vector [0]) (Some (eye [] 1)) None false [] [1%nat].

Definition q_shifted : MVN :=
  mkMVN true (vector [1]) (Some (eye [] 1)) None false [] [1%nat].

(** The standard normal in two dimensions, [N([0, 0], I)]. *)
Definition std2 : MVN :=
  mkMVN true (vector [0; 0]) (Some (eye [] 2)) None false [] [2%nat].

(** A batch of two three-dimensional standard normals: mean of shape [2 x 3],
    covariance of shape [2 x 3 x 3]. *)
Definition batch23 : MVN :=
  mkMVN true (full [2; 3]%nat 0) (Some (eye [2%nat] 3)) None false [2%nat] [3%nat].


Definition no_noise : Noise R := fun _ => 0.

(** An objective with one prior whose log probability is 4, two data points,
    and a likelihood term of 3. *)
Definition elbo (combine : bool) : ApproximateMarginalLogLikelihood R (Tensor R) :=
  {| _log_likelihood_term := fun _ _ => Ok (scalar_tensor 3);
     model := {| prior_distribution := p_std;
                 variational_distribution := p_std;
                 added_loss_terms := [] |};
     named_priors := [vector [4]];
     num_data := 2;
     beta := 1;
     combine_terms := combine |}.

End Examples.

(** ** Further methods of [_MultivariateNormalBase]

    The remaining methods of the class call two more methods of the operator
    library, [cholesky] and [diag], the base class's [variance], and the
    constructors of two classes of other modules. *)

Class LazyTensorMore (F : Type) {SF : Scalar F} (L : Type) : Type := {
  lt_cholesky : L -> option L;               (* .cholesky() *)
  lt_diag : L -> option (Tensor F)           (* .diag() *)
}.

Section FurtherMethods.

Context {F : Type} {SF : Scalar F} {L : Type} {LT : LazyTensor F L}
        {LM : LazyTensorMore F L}.

(** [t.sqrt()]. *)
Definition tsqrt (t : Tensor F) : Tensor F :=
  mkTensor (shape t) (fun idx => fsqrt (entry t idx)).

(** Python's [range(a, b)]. *)
Definition py_range (a b : nat) : list nat := seq a (b - a).

(** The base class's [variance], read on the dense path. *)
Class TorchMVNMore : Type := {
  base_variance : MultivariateNormal F L -> option (Tensor F)
}.

Context {TB : TorchMVN F L} {TM : TorchMVNMore}.

(** *** The memoised Cholesky factor

    The private attribute [__unbroadcasted_scale_tril] is not among the
    fields of [MultivariateNormal]; an instance is paired with it here.  The
    attribute is unassigned ([None]), assigned Python's [None]
    ([Some None]) or assigned a value. *)
Record InstanceState : Type := mkInstanceState {
  fields : MultivariateNormal F L;
  __unbroadcasted_scale_tril : option (option (Tensor F + L))
}.

(** [delazify(obj)] for an operator: [obj.evaluate()]. *)
Definition delazify (obj : L) : Tensor F + L := lt_evaluate obj.

(** The structured path of the constructor, which also assigns
    [self.__unbroadcasted_scale_tril = None]. *)
Definition init_structured (mean : Tensor F) (l : L) (validate_args : bool)
    : result InstanceState :=
  d <- __init__ mean (LazyCov l) validate_args ;;
  Ok (mkInstanceState d (Some None)).

(** The getter of the property: the value read and the instance after the
    read. *)
Definition _unbroadcasted_scale_tril (self : InstanceState)
    : result (option (Tensor F + L) * InstanceState) :=
  if _islazy (fields self)
  then
    cached <- lift AttributeError (__unbroadcasted_scale_tril self) ;;
    match cached with
    | None =>
        covar <- lazy_covariance_matrix (fields self) ;;
        factor <- lift OperatorError (lt_cholesky covar) ;;
        let ust := delazify factor in
        Ok (Some ust, mkInstanceState (fields self) (Some (Some ust)))
    | Some ust => Ok (Some ust, self)
    end
  else
    cached <- lift AttributeError (__unbroadcasted_scale_tril self) ;;
    Ok (cached, self).

(** The setter of the property. *)
Definition _unbroadcasted_scale_tril_setter (self : InstanceState)
    (ust : option (Tensor F + L)) : result InstanceState :=
  if _islazy (fields self) then Err NotImplementedError
  else Ok (mkInstanceState (fields self) (Some ust)).

(** *** [variance], [stddev] and [confidence_region] *)

Definition variance (d : MultivariateNormal F L) : result (Tensor F) :=
  if _islazy d
  then
    covar <- lazy_covariance_matrix d ;;
    diag <- lift OperatorError (lt_diag covar) ;;
    diag <- view diag (drop_last1 (shape diag) ++ event_shape d) ;;
    texpand diag (batch_shape d ++ event_shape d)
  else lift BaseClassError (base_variance d).

(** [torch.distributions.Distribution.stddev] is [self.variance.sqrt()]. *)
Definition stddev (d : MultivariateNormal F L) : result (Tensor F) :=
  v <- variance d ;;
  Ok (tsqrt v).

(** The pair (lower, upper). *)
Definition confidence_region (d : MultivariateNormal F L)
    : result (Tensor F * Tensor F) :=
  s <- stddev d ;;
  let std2 := tscale s (f_of_Z 2) in
  let mean := mean d in
  lower <- tsub mean std2 ;;
  upper <- tadd mean std2 ;;
  Ok (lower, upper).

(** *** [get_base_samples]

    [_extended_shape(sample_shape)] is
    [sample_shape + batch_shape + event_shape]; the standard normal draws
    are the entries of [noise]. *)
Definition _extended_shape (d : MultivariateNormal F L) (sample_shape : Shape) : Shape :=
  sample_shape ++ batch_shape d ++ event_shape d.

Definition get_base_samples (d : MultivariateNormal F L) (sample_shape : Shape)
    (noise : Noise F) : Tensor F :=
  mkTensor (_extended_shape d sample_shape) noise.

(** *** [to_multitask_from_batch] and [to_multitask]

    [BlockInterleavedLazyTensor] and [MultitaskMultivariateNormal] are
    classes of other modules: an object of either is kept as the arguments
    its constructor received. *)
Record BlockInterleavedLazyTensor : Type := {
  base_lazy_tensor : L;
  block_dim : Z
}.

Record MultitaskMultivariateNormal : Type := {
  mt_mean : Tensor F;
  mt_covariance_matrix : BlockInterleavedLazyTensor
}.

Definition to_multitask_from_batch (d : MultivariateNormal F L) (task_dim : Z)
    : result MultitaskMultivariateNormal :=
  let task_dim :=
    if (0 <=? task_dim)%Z then task_dim
    else (Z.of_nat (length (batch_shape d)) + task_dim)%Z in
  if (task_dim <? 0)%Z || (Z.of_nat (length (batch_shape d)) <? task_dim)%Z
  then Err ValueError
  else
    let num_dim := dim (mean d) in
    let t := Z.to_nat task_dim in
    m <- permute (mean d) (py_range 0 t ++ py_range (t + 1) num_dim ++ [t]) ;;
    covar <- lazy_covariance_matrix d ;;
    Ok {| mt_mean := m;
          mt_covariance_matrix :=
            {| base_lazy_tensor := covar; block_dim := task_dim |} |}.

Definition to_multitask (d : MultivariateNormal F L) (num_tasks : nat)
    : result MultitaskMultivariateNormal :=
  d' <- expand d ([num_tasks] ++ batch_shape d) ;;
  to_multitask_from_batch d' 0.

End FurtherMethods.

Arguments TorchMVNMore F L : clear implicits.
Arguments InstanceState F L : clear implicits.
Arguments BlockInterleavedLazyTensor L : clear implicits.
Arguments MultitaskMultivariateNormal F L : clear implicits.

(** The contracts of the operator library that the properties of these
    methods rely on: [expand] and [diag] re-read entries of the matrix,
    [+] adds entrywise, and [matmul] is the matrix product. *)
Class LazyTensorMoreLaws (F : Type) {SF : Scalar F} (L : Type)
    {LT : LazyTensor F L} {LM : LazyTensorMore F L} : Prop := {
  lt_expand_ok : forall (l : L) (s : Shape),
      broadcast_shapes (lt_shape l) s = Some s ->
      exists l', lt_expand l s = Some l' /\ lt_shape l' = s /\
        forall idx, valid_index s idx ->
          entry (lt_dense l') idx = entry (lt_dense l) (bindex (lt_shape l) idx);
  lt_diag_ok : forall (l : L) (b : Shape) (n : nat),
      lt_shape l = b ++ [n; n] ->
      exists t, lt_diag l = Some t /\ shape t = b ++ [n] /\
        forall ib i, valid_index (b ++ [n]) (ib ++ [i]) ->
          entry t (ib ++ [i]) = entry (lt_dense l) (ib ++ [i; i]);
  lt_add_ok : forall (a b : L),
      lt_shape a = lt_shape b ->
      exists c, lt_add a b = Some c /\ lt_shape c = lt_shape a /\
        forall idx, valid_index (lt_shape a) idx ->
          entry (lt_dense c) idx = fadd (entry (lt_dense a) idx) (entry (lt_dense b) idx);
  lt_matmul_entries : forall (r : L) (x t : Tensor F) (b : Shape) (n m k : nat),
      lt_shape r = b ++ [n; m] -> shape x = b ++ [m; k] ->
      lt_matmul r x = Some t ->
      forall ib i j, valid_index (b ++ [n; k]) (ib ++ [i; j]) ->
        entry t (ib ++ [i; j])
        = fsum (map (fun c => fmul (entry (lt_dense r) (ib ++ [i; c]))
                                   (entry x (ib ++ [c; j])))
                    (seq 0 m))
}.

(** The dense operator and the stand-in for the base class, extended. *)
Section DenseOperatorMore.

Context {F : Type} {SF : Scalar F}.

Definition dense_diag (l : Tensor F) : option (Tensor F) :=
  match rev (shape l) with
  | n2 :: n1 :: b =>
      if n1 =? n2
      then Some (mkTensor (rev b ++ [n1]) (fun idx => entry l (idx ++ [last idx 0])))
      else None
  | _ => None
  end.

#[export] Instance DenseOperatorMore : LazyTensorMore F (Tensor F) := {|
  lt_cholesky := dense_cholesky;
  lt_diag := dense_diag
|}.

Definition simple_base_variance (d : MultivariateNormal F (Tensor F))
    : option (Tensor F) :=
  match covariance_param d with
  | Some cov => dense_diag cov
  | None => None
  end.

#[export] Instance SimpleTorchMore : TorchMVNMore F (Tensor F) := {|
  base_variance := simple_base_variance
|}.

End DenseOperatorMore.

(** ** An operator held through a root factor

    Modelled from the spec: the structured-operator library is not among the
    source files.  [LowRank r] stands for the matrix [r r^T] of an [n x k]
    factor [r], which is its own root of rank [k]; every other method goes
    through the dense matrix. *)

Section RootOperator.

Context {F : Type} {SF : Scalar F}.

Inductive RootOperator : Type :=
| Dense (t : Tensor F)
| LowRank (r : Tensor F).

(** [t.transpose(-1, -2)]. *)
Definition transpose_last (t : Tensor F) : Tensor F :=
  match rev (shape t) with
  | k :: n :: b =>
      mkTensor (rev b ++ [k; n])
        (fun idx => entry t (removelast (removelast idx)
                             ++ [last idx 0; last (removelast idx) 0]))
  | _ => t
  end.

Definition root_dense (x : RootOperator) : Tensor F :=
  match x with
  | Dense t => t
  | LowRank r =>
      match dense_matmul r (transpose_last r) with
      | Some m => m
      | None => r
      end
  end.

#[export] Instance RootOperatorLazyTensor : LazyTensor F RootOperator := {|
  lt_shape := fun x => shape (root_dense x);
  lt_dense := root_dense;
  lt_evaluate := fun x => inl (root_dense x);
  lt_expand := fun x s => option_map Dense (to_option (texpand (root_dense x) s));
  lt_repeat := fun x sizes => option_map Dense (dense_repeat (root_dense x) sizes);
  lt_inv_quad_logdet := fun x => dense_inv_quad_logdet (root_dense x);
  lt_logdet := fun x => dense_logdet (root_dense x);
  lt_root := fun x =>
    match x with
    | Dense t => option_map Dense (dense_cholesky t)
    | LowRank r => Some (Dense r)
    end;
  lt_matmul := fun x => dense_matmul (root_dense x);
  lt_zero_mean_mvn_samples := fun x => dense_zero_mean_mvn_samples (root_dense x);
  lt_mul := fun x c => Dense (tscale (root_dense x) c);
  lt_add := fun x y =>
    option_map Dense (to_option (tadd (root_dense x) (root_dense y)));
  lazify := Dense
|}.

End RootOperator.

Arguments RootOperator F : clear implicits.

(** An objective without priors and added losses, with [combine_terms]; two
    two-dimensional normals held through a root of rank 1 and of rank 3. *)
Module MoreExamples.

Import Examples.
Open Scope R_scope.


Definition rank1 : MultivariateNormal R (RootOperator R) :=
  mkMVN true (vector [0; 0]) (Some (LowRank (full [2; 1]%nat 1))) None false
    [] [2%nat].

Definition rank3 : MultivariateNormal R (RootOperator R) :=
  mkMVN true (vector [0; 0]) (Some (LowRank (full [2; 3]%nat 1))) None false
    [] [2%nat].

End MoreExamples.

(** * Properties *)

(** ** Shapes and indices *)

Lemma shape_eqb_eq (a b : Shape) : shape_eqb a b = true <-> a = b.
Proof.
  revert b; induction a as [|x a IH]; intros [|y b]; simpl; split; intro H;
    try reflexivity; try discriminate.
  - apply andb_true_iff in H as [H1 H2].
    apply Nat.eqb_eq in H1. apply IH in H2. congruence.
  - injection H as -> ->. rewrite Nat.eqb_refl. apply IH. reflexivity.
Qed.

Lemma shape_eqb_refl (a : Shape) : shape_eqb a a = true.
Proof. apply shape_eqb_eq. reflexivity. Qed.

Lemma shape_eqb_neq (a b : Shape) : shape_eqb a b = false <-> a <> b.
Proof.
  split.
  - intros H E. apply shape_eqb_eq in E. congruence.
  - intros H. destruct (shape_eqb a b) eqn:E; [|reflexivity].
    apply shape_eqb_eq in E. contradiction.
Qed.

Lemma broadcast_rev_refl (s : Shape) : broadcast_rev s s = Some s.
Proof.
  induction s as [|x s IH]; simpl; [reflexivity|].
  rewrite IH, Nat.eqb_refl. reflexivity.
Qed.

Lemma broadcast_shapes_refl (s : Shape) : broadcast_shapes s s = Some s.
Proof.
  unfold broadcast_shapes. rewrite broadcast_rev_refl. simpl.
  rewrite rev_involutive. reflexivity.
Qed.

Lemma broadcast_rev_nil_r (s : Shape) : broadcast_rev s [] = Some s.
Proof. destruct s; reflexivity. Qed.

Lemma broadcast_shapes_nil_l (s : Shape) : broadcast_shapes [] s = Some s.
Proof.
  unfold broadcast_shapes. simpl. rewrite rev_involutive. reflexivity.
Qed.

Lemma broadcast_shapes_nil_r (s : Shape) : broadcast_shapes s [] = Some s.
Proof.
  unfold broadcast_shapes. simpl. rewrite broadcast_rev_nil_r. simpl.
  rewrite rev_involutive. reflexivity.
Qed.

Lemma Forall2_rev_intro {A B : Type} (P : A -> B -> Prop) (a : list A) (b : list B) :
  Forall2 P a b -> Forall2 P (rev a) (rev b).
Proof.
  induction 1; simpl; [constructor|].
  apply Forall2_app; [assumption|]. constructor; [assumption|constructor].
Qed.

Lemma Forall2_rev_elim {A B : Type} (P : A -> B -> Prop) (a : list A) (b : list B) :
  Forall2 P (rev a) (rev b) -> Forall2 P a b.
Proof.
  intro H. apply Forall2_rev_intro in H. rewrite !rev_involutive in H. exact H.
Qed.

(** Reading a broadcast operand at an index of its own shape reads that very
    index. *)
Lemma pin_valid_same (s idx : list nat) :
  Forall2 (fun i n => i < n) idx s ->
  zip_with (fun n i => if n =? 1 then 0 else i) s idx = idx.
Proof.
  induction 1 as [|i n idx s Hi _ IH]; simpl; [reflexivity|].
  rewrite IH. destruct (n =? 1) eqn:E; [|reflexivity].
  apply Nat.eqb_eq in E. f_equal. lia.
Qed.

Lemma bindex_valid_same (s idx : list nat) :
  valid_index s idx -> bindex s idx = idx.
Proof.
  intro H. unfold bindex. apply Forall2_rev_intro in H.
  rewrite (pin_valid_same _ _ H). apply rev_involutive.
Qed.

Lemma bindex_nil (idx : list nat) : bindex [] idx = [].
Proof. reflexivity. Qed.

(** The index read in an operand is an index of the operand, whenever the
    operand broadcasts to the shape that is read. *)
Lemma pin_valid (a s idx : list nat) :
  broadcast_rev a s = Some s ->
  Forall2 (fun i n => i < n) idx s ->
  Forall2 (fun i n => i < n)
    (zip_with (fun n i => if n =? 1 then 0 else i) a idx) a.
Proof.
  revert s idx; induction a as [|x a IH]; intros s idx Hb Hv; simpl.
  - constructor.
  - destruct s as [|y s]; simpl in Hb.
    + discriminate.
    + inversion Hv as [|i n idx' s' Hi Hv']; subst.
      destruct (broadcast_rev a s) as [r|] eqn:Hr; [|discriminate].
      assert (Hrs : r = s /\ (x = y \/ x = 1)).
      { destruct (x =? y) eqn:E1.
        - apply Nat.eqb_eq in E1. injection Hb as _ ->. auto.
        - destruct (x =? 1) eqn:E2.
          + apply Nat.eqb_eq in E2. injection Hb as ->. auto.
          + destruct (y =? 1) eqn:E3; [|discriminate].
            injection Hb as -> ->. apply Nat.eqb_neq in E1. contradiction. }
      destruct Hrs as [-> Hx]. constructor.
      * destruct (x =? 1) eqn:E; [apply Nat.eqb_eq in E; lia|].
        apply Nat.eqb_neq in E. lia.
      * apply IH with (s := s); assumption.
Qed.

Lemma bindex_valid (a s idx : list nat) :
  broadcast_shapes a s = Some s ->
  valid_index s idx -> valid_index a (bindex a idx).
Proof.
  unfold broadcast_shapes, valid_index, bindex. intros Hb Hv.
  destruct (broadcast_rev (rev a) (rev s)) as [r|] eqn:Hr; [|discriminate].
  simpl in Hb. injection Hb as Hb.
  assert (r = rev s) by (rewrite <- Hb; rewrite rev_involutive; reflexivity).
  subst r. apply Forall2_rev_elim. rewrite rev_involutive.
  apply pin_valid with (s := rev s); [assumption|].
  apply Forall2_rev_intro. assumption.
Qed.

Lemma zip_with_length {A B C : Type} (f : A -> B -> C) (a : list A) (b : list B) :
  length (zip_with f a b) = Nat.min (length a) (length b).
Proof.
  revert b; induction a as [|x a IH]; intros [|y b]; simpl; auto.
Qed.

Lemma zip_with_app {A B C : Type} (f : A -> B -> C) (a a' : list A) (b b' : list B) :
  length a = length b ->
  zip_with f (a ++ a') (b ++ b') = zip_with f a b ++ zip_with f a' b'.
Proof.
  revert b; induction a as [|x a IH]; intros [|y b] H; simpl in *;
    try discriminate; [reflexivity|].
  f_equal. apply IH. lia.
Qed.

Lemma zip_with_rev {A B C : Type} (f : A -> B -> C) (a : list A) (b : list B) :
  length a = length b ->
  rev (zip_with f a b) = zip_with f (rev a) (rev b).
Proof.
  revert b; induction a as [|x a IH]; intros [|y b] H; simpl in *;
    try discriminate; [reflexivity|].
  rewrite zip_with_app by (rewrite !length_rev; lia).
  rewrite IH by lia. reflexivity.
Qed.

(** Tiling reads an index of the tiled tensor. *)
Lemma tile_valid_rev (a z p idx : list nat) :
  length a <= length z ->
  Forall2 (fun i n => i < n) idx (zip_with Nat.mul z (a ++ p)) ->
  Forall2 (fun i n => i < n) (zip_with (fun n i => i mod n) a idx) a.
Proof.
  revert z idx; induction a as [|x a IH]; intros z idx Hl Hv; simpl.
  - constructor.
  - destruct z as [|k z]; simpl in Hl; [lia|].
    simpl in Hv. inversion Hv as [|i n idx' s' Hi Hv']; subst.
    constructor.
    + apply Nat.mod_upper_bound. intro; subst; lia.
    + apply IH with (z := z); [lia|assumption].
Qed.

Lemma tile_valid (s sizes idx : list nat) :
  length s <= length sizes ->
  valid_index (zip_with Nat.mul sizes (pad_shape (length sizes) s)) idx ->
  valid_index s (tile_index s idx).
Proof.
  unfold valid_index, tile_index, pad_shape. intros Hl Hv.
  apply Forall2_rev_elim. rewrite rev_involutive.
  apply Forall2_rev_intro in Hv.
  rewrite zip_with_rev in Hv
    by (rewrite length_app, repeat_length; lia).
  rewrite rev_app_distr in Hv.
  apply tile_valid_rev with (z := rev sizes) (p := rev (repeat 1 (length sizes - length s))).
  - rewrite !length_rev. assumption.
  - assumption.
Qed.

Lemma teq_refl {F : Type} (t : Tensor F) : teq t t.
Proof. split; [reflexivity|]. intros; reflexivity. Qed.

(** ** The arithmetic operators *)

Section Arithmetic.

Context {F : Type} {SF : Scalar F} {FR : FloatRange F} {L : Type}
        {LT : LazyTensor F L} {TB : TorchMVN F L}.

Lemma bind_ok {A B : Type} (m : result A) (k : A -> result B) (a : A) :
  m = Ok a -> bind m k = k a.
Proof. intros ->. reflexivity. Qed.

Lemma scalar_py_eq_int (other : PyVal F) (k : Z) :
  is_scalar other = true -> exists b, py_eq_int other k = Ok b.
Proof.
  destruct other; simpl; intro H; try discriminate; eexists; reflexivity.
Qed.



(** An int whose square fits in 64 bits fits in 64 bits. *)
Lemma fits_int64_square (z : Z) : fits_int64 (z * z) = true -> fits_int64 z = true.
Proof.
  unfold fits_int64. intro H. apply andb_true_iff in H as [H1 H2].
  apply Z.leb_le in H1. apply Z.ltb_lt in H2.
  apply andb_true_iff. split; [apply Z.leb_le|apply Z.ltb_lt]; nia.
Qed.

(** On an accepted number the two conversions of [__mul__] succeed: the
    operand of the mean is the number, the factor of the covariance is its
    square. *)
Lemma accepted_number_conversions (c : PyVal F) :
  is_scalar c = true -> accepted_number c ->
  torch_number c = Ok (scalar_value c) /\
  exists squared, py_square c = Ok squared /\ scalar_value squared = square_of c.
Proof.
  destruct c as [z|b|x| | |]; simpl; intros Hs Ha; try discriminate.
  - rewrite (fits_int64_square z Ha). split; [reflexivity|].
    eexists. split; reflexivity.
  - split; [reflexivity|]. eexists. split; reflexivity.
  - rewrite Ha. split; [reflexivity|]. eexists. split; reflexivity.
Qed.

(** Building the product instance succeeds on a well-formed distribution. *)
Lemma new_scaled_instance {LL : LazyTensorLaws F L}
    (h : Heap) (A : MultivariateNormal F L) (covar : L) (c c2 : F) :
  lazy_covariance_matrix A = Ok covar ->
  _mul_broadcast_shape (drop_last1 (shape (loc A))) (drop_last2 (lt_shape covar))
    = Ok (batch_shape A) ->
  new_instance h (tscale (mean A) c) (LazyCov (lt_mul covar c2))
  = Ok (length h,
        h ++ [mkMVN true (tscale (mean A) c) (Some (lt_mul covar c2)) None false
                (batch_shape A) (lastn 1 (shape (loc A)))]).
Proof.
  intros Hc Hb. unfold new_instance, __init__. simpl.
  rewrite lt_mul_shape. unfold mean. rewrite Hb. reflexivity.
Qed.

(** [A * c] for an accepted number [c] other than 1. *)
Lemma mul_accepted_number {LL : LazyTensorLaws F L}
    (h : Heap) (self : Ref) (A : MultivariateNormal F L) (covar : L) (c : PyVal F) :
  nth_error h self = Some A ->
  lazy_covariance_matrix A = Ok covar ->
  _mul_broadcast_shape (drop_last1 (shape (loc A))) (drop_last2 (lt_shape covar))
    = Ok (batch_shape A) ->
  is_scalar c = true -> accepted_number c -> py_eq_int c 1 = Ok false ->
  __mul__ h self c
  = Ok (length h,
        h ++ [mkMVN true (tscale (mean A) (scalar_value c))
                (Some (lt_mul covar (square_of c))) None false
                (batch_shape A) (lastn 1 (shape (loc A)))]).
Proof.
  intros Hself Hc Hb Hs Ha He.
  destruct (accepted_number_conversions c Hs Ha) as (Hn & sq & Hsq & Hv).
  unfold __mul__. rewrite Hs. simpl. rewrite He. simpl.
  unfold deref. rewrite Hself. simpl. rewrite Hn. simpl. rewrite Hc. simpl.
  rewrite Hsq. simpl. rewrite Hv.
  apply new_scaled_instance; assumption.
Qed.

(** C10: multiplying by the scalar 1 and left-adding the scalar 0 return the
    receiver itself: the same reference, and a store in which no instance was
    constructed or changed. *)
Theorem mul_one_radd_zero_same_instance :
  forall (h : Heap) (self : Ref),
    __mul__ h self (PyInt 1) = Ok (self, h) /\
    __mul__ h self (PyBool true) = Ok (self, h) /\
    __radd__ h self (PyInt 0) = Ok (self, h) /\
    __radd__ h self (PyBool false) = Ok (self, h).
Proof.
  intros h self. repeat split; reflexivity.
Qed.

(** By contrast, multiplying by another accepted scalar constructs an
    instance, which lives at a fresh reference. *)
Lemma mul_other_scalar_fresh_instance {LL : LazyTensorLaws F L} :
  forall (h : Heap) (self : Ref) (A : MultivariateNormal F L) (c : PyVal F),
    nth_error h self = Some A -> well_formed A ->
    is_scalar c = true -> accepted_number c -> py_eq_int c 1 = Ok false ->
    exists A', __mul__ h self c = Ok (length h, h ++ [A']) /\ length h <> self.
Proof.
  intros h self A c Hself (covar & Hc & Hb & _) Hs Ha He.
  rewrite (mul_accepted_number h self A covar c Hself Hc Hb Hs Ha He).
  eexists. split; [reflexivity|].
  assert (self < length h) by (apply nth_error_Some; congruence).
  lia.
Qed.


End Arithmetic.

(** ** Sums of batched terms *)

Section Sums.

Context {F : Type} {SF : Scalar F}.

Lemma tbinop_same_shape (f : F -> F -> F) (a b : Tensor F) :
  shape a = shape b ->
  exists t, tbinop f a b = Ok t /\ shape t = shape a /\
    forall idx, valid_index (shape a) idx ->
      entry t idx = f (entry a idx) (entry b idx).
Proof.
  intro H. unfold tbinop. rewrite <- H, broadcast_shapes_refl. simpl.
  eexists. split; [reflexivity|]. split; [reflexivity|].
  intros idx Hv. simpl. rewrite (bindex_valid_same _ _ Hv). reflexivity.
Qed.

Lemma tbinop_scalar_l (f : F -> F -> F) (x : F) (b : Tensor F) :
  exists t, tbinop f (scalar_tensor x) b = Ok t /\ shape t = shape b /\
    forall idx, valid_index (shape b) idx -> entry t idx = f x (entry b idx).
Proof.
  unfold tbinop, scalar_tensor. cbn [shape]. rewrite broadcast_shapes_nil_l. simpl.
  eexists. split; [reflexivity|]. split; [reflexivity|].
  intros idx Hv. simpl. rewrite (bindex_valid_same _ _ Hv). reflexivity.
Qed.

Lemma tbinop_scalar_r (f : F -> F -> F) (a : Tensor F) (x : F) :
  exists t, tbinop f a (scalar_tensor x) = Ok t /\ shape t = shape a /\
    forall idx, valid_index (shape a) idx -> entry t idx = f (entry a idx) x.
Proof.
  unfold tbinop, scalar_tensor. cbn [shape]. rewrite broadcast_shapes_nil_r. simpl.
  eexists. split; [reflexivity|]. split; [reflexivity|].
  intros idx Hv. simpl. rewrite (bindex_valid_same _ _ Hv). reflexivity.
Qed.


(** Python's [sum] of three tensors of the same shape and a number. *)
Lemma py_sum_three_and_number {SL : ScalarLaws F} (a b c : Tensor F) (x : F) :
  shape a = shape b -> shape a = shape c ->
  exists t, py_sum [a; b; c; scalar_tensor x] = Ok t /\ shape t = shape a /\
    forall idx, valid_index (shape a) idx ->
      entry t idx = fadd (fadd (fadd (entry a idx) (entry b idx)) (entry c idx)) x.
Proof.
  intros Hab Hac. unfold py_sum, py_sum_from, tadd.
  destruct (tbinop_scalar_l fadd fzero a) as (t1 & E1 & S1 & V1).
  rewrite E1. simpl.
  destruct (tbinop_same_shape fadd t1 b) as (t2 & E2 & S2 & V2); [congruence|].
  rewrite E2. simpl.
  destruct (tbinop_same_shape fadd t2 c) as (t3 & E3 & S3 & V3); [congruence|].
  rewrite E3. simpl.
  destruct (tbinop_scalar_r fadd t3 x) as (t4 & E4 & S4 & V4).
  rewrite E4. simpl.
  eexists. split; [reflexivity|]. split; [congruence|].
  intros idx Hv. rewrite V4 by congruence. rewrite V3 by congruence.
  rewrite V2 by congruence. rewrite V1 by assumption.
  rewrite fadd_0_l. reflexivity.
Qed.

End Sums.

(** ** [expand] and the KL divergence *)

Section Divergence.

Context {F : Type} {SF : Scalar F} {L : Type} {LT : LazyTensor F L}
        {TB : TorchMVN F L}.

(** The dense path of the constructor never assigns [_covar]. *)
Lemma init_dense_has_no_covar (m t : Tensor F) (v : bool) (d : MultivariateNormal F L) :
  __init__ m (DenseCov t) v = Ok d -> _islazy d = false /\ _covar d = None.
Proof.
  unfold __init__. destruct (base_init m t v) as [[[[l c] bs] es]|]; simpl;
    [|discriminate].
  intro H. injection H as <-. split; reflexivity.
Qed.

(** The structured path assigns it. *)
Lemma init_lazy_well_formed (m : Tensor F) (l : L) (d : MultivariateNormal F L) :
  __init__ m (LazyCov l) false = Ok d ->
  _islazy d = true /\ _covar d = Some l /\ loc d = m /\ well_formed d.
Proof.
  unfold __init__.
  destruct (_mul_broadcast_shape (drop_last1 (shape m)) (drop_last2 (lt_shape l)))
    as [bs|e] eqn:E; simpl; [|discriminate].
  intro H. injection H as <-. repeat split.
  exists l. repeat split. assumption.
Qed.

(** [expand] never returns on an instance without [_covar]: once the mean is
    expanded, reading the attribute raises. *)
Lemma expand_without_covar (d : MultivariateNormal F L) (batch_size : Shape) :
  _covar d = None ->
  expand d batch_size = Err AttributeError \/ expand d batch_size = Err TorchError.
Proof.
  intro H. unfold expand.
  destruct (texpand (loc d) (batch_size ++ lastn 1 (shape (loc d)))) as [nl|e] eqn:E.
  - left. simpl. rewrite H. reflexivity.
  - right. simpl. unfold texpand in E.
    destruct (broadcast_shapes (shape (loc d)) (batch_size ++ lastn 1 (shape (loc d))));
      [destruct (shape_eqb _ _)|]; congruence.
Qed.

Lemma expand_dense_mode_raises (m t : Tensor F) (v : bool)
    (d : MultivariateNormal F L) (batch_size : Shape) :
  __init__ m (DenseCov t) v = Ok d ->
  exists e, expand d batch_size = Err e.
Proof.
  intro H. apply init_dense_has_no_covar in H as [_ H].
  destruct (expand_without_covar d batch_size H) as [E|E]; eauto.
Qed.

(** On a structured instance [expand] builds a new instance from the expanded
    mean and the expanded operator. *)
Lemma expand_structured (d : MultivariateNormal F L) (covar new_covar : L)
    (new_loc : Tensor F) (batch_size : Shape) :
  _covar d = Some covar ->
  texpand (loc d) (batch_size ++ lastn 1 (shape (loc d))) = Ok new_loc ->
  lt_expand covar (batch_size ++ lastn 2 (lt_shape covar)) = Some new_covar ->
  expand d batch_size = __init__ new_loc (LazyCov new_covar) false.
Proof.
  intros Hc Hl He. unfold expand. rewrite Hl. simpl. rewrite Hc. simpl.
  rewrite He. reflexivity.
Qed.

(** The value [kl_mvn_mvn] returns once both operands have the common batch
    shape: half of [logdet_q + (-1) logdet_p + trace_plus_inv_quad_form + (-d)],
    with the last two read off one fused call on the operator of [q]. *)
Lemma kl_mvn_mvn_formula {SL : ScalarLaws F} {LL : LazyTensorLaws F L}
    (p q p' q' : MultivariateNormal F L) (output_shape : Shape)
    (p_covar q_covar root : L) (root_p_covar mean_diffs inv_quad_rhs : Tensor F)
    (logdet_p tq logdet_q : Tensor F) (n : nat) :
  _mul_broadcast_shape (batch_shape p) (batch_shape q) = Ok output_shape ->
  (if negb (shape_eqb output_shape (batch_shape p))
   then expand p output_shape else Ok p) = Ok p' ->
  (if negb (shape_eqb output_shape (batch_shape q))
   then expand q output_shape else Ok q) = Ok q' ->
  lazy_covariance_matrix q' = Ok q_covar ->
  lazy_covariance_matrix p' = Ok p_covar ->
  drop_last2 (lt_shape p_covar) = drop_last2 (lt_shape q_covar) ->
  lt_root p_covar = Some root ->
  lt_evaluate root = inl root_p_covar ->
  tsub (loc p') (loc q') = Ok mean_diffs ->
  cat_last (unsqueeze_last mean_diffs) root_p_covar = Ok inv_quad_rhs ->
  lt_logdet p_covar = Some logdet_p ->
  lt_inv_quad_logdet q_covar inv_quad_rhs = Some (tq, logdet_q) ->
  index_neg1 (shape mean_diffs) = Ok n ->
  exists res,
    kl_mvn_mvn p q = Ok res /\
    shape res = drop_last2 (lt_shape q_covar) /\
    forall idx, valid_index (shape res) idx ->
      entry res idx =
      fmul fhalf
        (fadd (fadd (fadd (entry logdet_q idx)
                          (fmul (entry logdet_p idx) (f_of_Z (-1))))
                    (entry tq idx))
              (fneg (f_of_Z (Z.of_nat n)))).
Proof.
  intros Hout Hp Hq Hqc Hpc Hbatch Hroot Hev Hdiff Hcat Hlp Hiq Hn.
  destruct (lt_inv_quad_logdet_shape _ _ _ _ Hiq) as [Stq Slq].
  pose proof (lt_logdet_shape _ _ Hlp) as Slp.
  destruct (py_sum_three_and_number logdet_q (tscale logdet_p (f_of_Z (-1))) tq
              (fneg (f_of_Z (Z.of_nat n)))) as (s & Es & Ss & Vs).
  { simpl. congruence. }
  { congruence. }
  exists (tscale_l fhalf s).
  unfold kl_mvn_mvn. rewrite Hout. simpl. rewrite Hp. simpl. rewrite Hq. simpl.
  rewrite Hqc. simpl. rewrite Hpc. simpl. rewrite Hroot. simpl.
  rewrite Hdiff. simpl. rewrite Hev. rewrite Hcat. simpl.
  rewrite Hlp. simpl. rewrite Hiq. simpl. rewrite Hn. simpl.
  rewrite Es. simpl.
  split; [reflexivity|]. split; [congruence|].
  intros idx Hv. rewrite Vs by congruence. reflexivity.
Qed.

End Divergence.

(** ** [log_prob] *)

Section LogProb.

Context {F : Type} {SF : Scalar F} {L : Type} {LT : LazyTensor F L}
        {TB : TorchMVN F L}.

(** [expand] only re-reads entries of the tensor it expands. *)
Lemma texpand_entries (t t' : Tensor F) (s : Shape) :
  texpand t s = Ok t' ->
  shape t' = s /\
  forall idx, valid_index s idx ->
    valid_index (shape t) (bindex (shape t) idx) /\
    entry t' idx = entry t (bindex (shape t) idx).
Proof.
  unfold texpand. destruct (broadcast_shapes (shape t) s) as [s'|] eqn:E;
    [|discriminate].
  destruct (shape_eqb s' s) eqn:E'; [|discriminate].
  apply shape_eqb_eq in E'. subst s'. intro H. injection H as <-.
  split; [reflexivity|]. intros idx Hv. split; [|reflexivity].
  apply bindex_valid with (s := s); assumption.
Qed.

(** [repeat] only re-reads entries of the tensor it tiles. *)
Lemma trepeat_entries (t t' : Tensor F) (sizes : list nat) :
  trepeat t sizes = Ok t' ->
  shape t' = zip_with Nat.mul sizes (pad_shape (length sizes) (shape t)) /\
  forall idx, valid_index (shape t') idx ->
    valid_index (shape t) (tile_index (shape t) idx) /\
    entry t' idx = entry t (tile_index (shape t) idx).
Proof.
  unfold trepeat, dim. destruct (length sizes <? length (shape t)) eqn:E;
    [discriminate|].
  apply Nat.ltb_ge in E. intro H. injection H as <-.
  split; [reflexivity|]. intros idx Hv. split; [|reflexivity].
  apply tile_valid with (sizes := sizes); assumption.
Qed.

Lemma zip_floordiv_ok (a b : list nat) :
  Forall (fun c => c <> 0) b ->
  zip_floordiv a b = Ok (zip_with Nat.div a b).
Proof.
  intro H. revert a. induction H as [|y b Hy _ IH]; intros [|x a]; simpl;
    try reflexivity.
  unfold floordiv. destruct (y =? 0) eqn:E; [apply Nat.eqb_eq in E; contradiction|].
  simpl. rewrite IH. reflexivity.
Qed.

Lemma removelast_length {A : Type} (l : list A) :
  length (removelast l) = length l - 1.
Proof.
  induction l as [|x [|y l] IH]; simpl in *; try reflexivity.
  rewrite IH. lia.
Qed.

Lemma drop_last2_app {A : Type} (l : list A) (x y : A) :
  drop_last2 (l ++ [x; y]) = l.
Proof.
  unfold drop_last2. change (l ++ [x; y]) with (l ++ [x] ++ [y]).
  rewrite app_assoc, !removelast_last. reflexivity.
Qed.

Lemma drop_last1_app2 {A : Type} (l : list A) (x y : A) :
  drop_last1 (l ++ [x; y]) = l ++ [x].
Proof.
  unfold drop_last1. change (l ++ [x; y]) with (l ++ [x] ++ [y]).
  rewrite app_assoc, removelast_last. reflexivity.
Qed.

(** Tiling by the floor quotients restores the sizes exactly when every
    quotient is exact. *)
Lemma tiled_sizes_iff (db padded : list nat) :
  length db = length padded ->
  Forall (fun c => c <> 0) padded ->
  zip_with Nat.mul (zip_with Nat.div db padded) padded = db <->
  Forall2 (fun d c => Nat.divide c d) db padded.
Proof.
  revert padded; induction db as [|x db IH]; intros [|c padded] Hl Hnz;
    simpl in *; try discriminate.
  - split; [constructor|reflexivity].
  - inversion Hnz as [|? ? Hc Hnz']; subst.
    specialize (IH padded ltac:(lia) Hnz').
    split.
    + intro H. injection H as H1 H2. constructor.
      * exists (x / c). lia.
      * apply IH. assumption.
    + intro H. inversion H as [|? ? ? ? Hd Hrest]; subst.
      f_equal.
      * destruct Hd as [q ->]. rewrite Nat.div_mul by assumption. reflexivity.
      * apply IH. assumption.
Qed.

(** C6: when the batch shape of [diff] differs from that of the covariance
    operator, [diff] is expanded if the operator has the larger batch rank,
    and otherwise the operator is tiled with the factors
    [diff_size // covar_size] against its batch shape padded with 1s; the
    tiled batch shape is that of [diff] exactly when every size divides; and
    both reconciliations only re-read existing entries. *)
Theorem match_batch_shape_spec :
  LazyTensorLaws F L ->
  forall (diff : Tensor F) (covar : L) (cb : Shape) (n m : nat),
    lt_shape covar = cb ++ [n; m] ->
    drop_last1 (shape diff) <> cb ->
    let db := drop_last1 (shape diff) in
    let padded := repeat 1 (length db - length cb) ++ cb in
    let factors := zip_with Nat.div db padded in
    (length db < length cb ->
       match_batch_shape diff covar
       = (diff' <- texpand diff (cb ++ [n]) ;; Ok (diff', covar)) /\
       forall diff', texpand diff (cb ++ [n]) = Ok diff' ->
         drop_last1 (shape diff') = cb /\
         forall idx, valid_index (shape diff') idx ->
           valid_index (shape diff) (bindex (shape diff) idx) /\
           entry diff' idx = entry diff (bindex (shape diff) idx)) /\
    (length cb <= length db -> Forall (fun c => c <> 0) cb ->
       match_batch_shape diff covar
       = (covar' <- lift OperatorError (lt_repeat covar (factors ++ [1; 1])) ;;
          Ok (diff, covar')) /\
       forall covar', lt_repeat covar (factors ++ [1; 1]) = Some covar' ->
         (drop_last2 (lt_shape covar') = db <->
          Forall2 (fun d c => Nat.divide c d) db padded) /\
         forall idx, valid_index (lt_shape covar') idx ->
           valid_index (lt_shape covar) (tile_index (lt_shape covar) idx) /\
           entry (lt_dense covar') idx
           = entry (lt_dense covar) (tile_index (lt_shape covar) idx)).
Proof.
  intros LL diff covar cb n m Hs Hne db padded factors.
  assert (Hneb : shape_eqb (drop_last1 (shape diff)) (drop_last2 (lt_shape covar)) = false).
  { rewrite Hs, drop_last2_app. apply shape_eqb_neq. assumption. }
  split.
  - intro Hlt. split.
    + unfold match_batch_shape. rewrite Hneb. simpl.
      rewrite Hs, drop_last2_app, drop_last1_app2.
      apply Nat.ltb_lt in Hlt. fold db. rewrite Hlt. reflexivity.
    + intros diff' He. apply texpand_entries in He as [Hsh Hen].
      rewrite Hsh. split; [apply removelast_last|assumption].
  - intros Hle Hnz.
    assert (Hdim : dim diff + 1 - length (lt_shape covar) = length db - length cb).
    { assert (Hdb : length db = length (shape diff) - 1) by apply removelast_length.
      unfold dim. rewrite Hs, length_app. cbn [length]. lia. }
    assert (Hpnz : Forall (fun c => c <> 0) padded).
    { unfold padded. apply Forall_app. split; [|assumption].
      apply Forall_forall. intros x Hx. apply repeat_spec in Hx. lia. }
    assert (Hplen : length padded = length db).
    { unfold padded. rewrite length_app, repeat_length. lia. }
    split.
    + unfold match_batch_shape. rewrite Hneb. simpl.
      rewrite Hs at 1. rewrite drop_last2_app.
      apply Nat.ltb_ge in Hle. fold db. rewrite Hle.
      rewrite Hdim. rewrite Hs, drop_last2_app. fold padded.
      rewrite zip_floordiv_ok by assumption. reflexivity.
    + intros covar' Hr. split.
      * rewrite (lt_repeat_shape _ _ _ Hr). rewrite Hs.
        assert (Hflen : length factors = length db).
        { unfold factors. rewrite zip_with_length. lia. }
        assert (Hpad : pad_shape (length (factors ++ [1; 1])) (cb ++ [n; m])
                       = padded ++ [n; m]).
        { unfold pad_shape, padded. rewrite !length_app. simpl.
          rewrite Hflen, app_assoc. f_equal. f_equal. f_equal. lia. }
        rewrite Hpad. rewrite zip_with_app by lia. simpl.
        rewrite !Nat.add_0_r. rewrite drop_last2_app.
        apply tiled_sizes_iff; [lia|assumption].
      * intros idx Hv.
        destruct (lt_repeat_dense _ _ _ Hr) as (t & Et & [Hsh Hen]).
        apply trepeat_entries in Et as [Hst Het].
        rewrite lt_dense_shape in *.
        rewrite Hen by assumption.
        apply Het. rewrite <- Hsh. assumption.
Qed.


End LogProb.

(** ** [rsample] and [sample] *)

Section Sampling.

Context {F : Type} {SF : Scalar F} {L : Type} {LT : LazyTensor F L}
        {TB : TorchMVN F L}.

Lemma lastn_app {A : Type} (a b : list A) : lastn (length b) (a ++ b) = b.
Proof.
  unfold lastn. rewrite length_app.
  replace (length a + length b - length b) with (length a) by lia.
  rewrite skipn_app, skipn_all, Nat.sub_diag. reflexivity.
Qed.

Lemma py_slice_from_neg_app {A : Type} (a b : list A) :
  b <> [] -> py_slice_from_neg (length b) (a ++ b) = b.
Proof.
  intro H. unfold py_slice_from_neg.
  destruct (length b =? 0) eqn:E.
  - apply Nat.eqb_eq in E. apply length_zero_iff_nil in E. contradiction.
  - apply lastn_app.
Qed.

Lemma py_slice_to_app {A : Type} (a b : list A) :
  py_slice_to (Z.of_nat (length (a ++ b)) - Z.of_nat (length b)) (a ++ b) = a.
Proof.
  unfold py_slice_to. rewrite length_app.
  replace (Z.of_nat (length a + length b) - Z.of_nat (length b))%Z
    with (Z.of_nat (length a)) by lia.
  destruct (Z.of_nat (length a) <? 0)%Z eqn:E; [apply Z.ltb_lt in E; lia|].
  rewrite Nat2Z.id, firstn_app, Nat.sub_diag, firstn_all. simpl.
  apply app_nil_r.
Qed.

Lemma numel_app (a b : Shape) : numel (a ++ b) = numel a * numel b.
Proof.
  induction a as [|x a IH]; simpl; [lia|]. rewrite IH. lia.
Qed.

Lemma index_neg1_app (l : Shape) (x : nat) : index_neg1 (l ++ [x]) = Ok x.
Proof. unfold index_neg1. rewrite rev_app_distr. reflexivity. Qed.

Lemma index_neg2_app (l : Shape) (x y : nat) : index_neg2 (l ++ [x; y]) = Ok x.
Proof. unfold index_neg2. rewrite rev_app_distr. reflexivity. Qed.

Lemma map_nth_seq (s : list nat) (k : nat) :
  map (fun j => nth j (k :: s) 0) (seq 1 (length s)) = s.
Proof.
  revert k. induction s as [|x s IH]; intro k; simpl; [reflexivity|].
  f_equal. rewrite <- seq_shift, map_map. apply (IH x).
Qed.

Lemma map_nth_seq0 (s : list nat) :
  map (fun j => nth j s 0) (seq 0 (length s)) = s.
Proof.
  induction s as [|x s IH]; simpl; [reflexivity|].
  f_equal. apply map_nth_seq.
Qed.

Lemma is_permutation_spec (p : list nat) :
  (forall k, k < length p -> In k p) -> is_permutation p = true.
Proof.
  intro H. unfold is_permutation. apply forallb_forall. intros k Hk.
  apply in_seq in Hk. apply existsb_exists. exists k. split.
  - apply H. lia.
  - apply Nat.eqb_refl.
Qed.

(** The layout change of the base samples: sample dimension last. *)
Lemma permute_sample_last (t : Tensor F) (N : nat) (s : Shape) :
  shape t = N :: s ->
  exists t', permute t (seq 1 (length s) ++ [0]) = Ok t' /\ shape t' = s ++ [N].
Proof.
  intro Hs. unfold permute, dim. rewrite Hs.
  rewrite length_app, length_seq. cbn [length].
  replace (length s + 1 =? S (length s)) with true
    by (symmetry; apply Nat.eqb_eq; lia).
  rewrite is_permutation_spec.
  - cbn [andb]. eexists. split; [reflexivity|]. cbn [shape].
    rewrite map_app, map_nth_seq. reflexivity.
  - intros k Hk. rewrite length_app, length_seq in Hk. simpl in Hk.
    apply in_or_app. destruct k; [right; left; reflexivity|].
    left. apply in_seq. lia.
Qed.

(** ... and back: sample dimension first. *)
Lemma permute_sample_first (t : Tensor F) (N : nat) (s : Shape) :
  shape t = s ++ [N] ->
  exists t', permute t ((dim t - 1) :: seq 0 (length s)) = Ok t' /\
             shape t' = N :: s.
Proof.
  intro Hs. unfold permute, dim. rewrite Hs.
  rewrite length_app. cbn [length]. rewrite length_seq.
  replace (S (length s) =? length s + 1) with true
    by (symmetry; apply Nat.eqb_eq; lia).
  rewrite is_permutation_spec.
  - cbn [andb]. eexists. split; [reflexivity|]. cbn [shape map].
    replace (length s + 1 - 1) with (length s) by lia.
    rewrite app_nth2, Nat.sub_diag by lia. cbn [nth]. f_equal.
    transitivity (map (fun j => nth j s 0) (seq 0 (length s)));
      [|apply map_nth_seq0].
    apply map_ext_in. intros j Hj. apply in_seq in Hj.
    apply app_nth1. lia.
  - intros k Hk. cbn [length] in Hk. rewrite length_seq in Hk.
    destruct (Nat.eq_dec k (length s)) as [->|Hne].
    + left. lia.
    + right. apply in_seq. lia.
Qed.

Lemma view_shape (t t' : Tensor F) (s : Shape) :
  view t s = Ok t' -> shape t' = s.
Proof.
  unfold view. destruct (numel s =? numel (shape t)); [|discriminate].
  intro H. injection H as <-. reflexivity.
Qed.

Lemma view_ok (t : Tensor F) (s : Shape) :
  numel s = numel (shape t) -> exists t', view t s = Ok t' /\ shape t' = s.
Proof.
  intro H. unfold view. rewrite H, Nat.eqb_refl. eexists. split; reflexivity.
Qed.

Lemma view_infer_ok (t : Tensor F) (S s : Shape) :
  shape t = S ++ s -> numel s <> 0 ->
  exists t', view_infer t s = Ok t' /\ shape t' = numel S :: s.
Proof.
  intros Hs Hnz. unfold view_infer.
  destruct (numel s =? 0) eqn:E; [apply Nat.eqb_eq in E; contradiction|].
  rewrite Hs, numel_app, Nat.Div0.mod_mul, Nat.div_mul by assumption. simpl.
  apply view_ok. rewrite Hs, numel_app. simpl. reflexivity.
Qed.

Lemma broadcast_rev_one_last (r : Shape) (N : nat) :
  broadcast_rev (r ++ [N]) (r ++ [1]) = Some (r ++ [N]) /\
  broadcast_rev (r ++ [1]) (r ++ [N]) = Some (r ++ [N]).
Proof.
  induction r as [|x r [IH1 IH2]]; simpl.
  - destruct N as [|[|N]]; simpl; auto.
  - rewrite IH1, IH2, Nat.eqb_refl. auto.
Qed.

Lemma broadcast_shapes_first_one (s : Shape) (N : nat) :
  broadcast_shapes (N :: s) (1 :: s) = Some (N :: s).
Proof.
  unfold broadcast_shapes. simpl rev.
  destruct (broadcast_rev_one_last (rev s) N) as [-> _]. simpl.
  rewrite rev_app_distr, rev_involutive. reflexivity.
Qed.

Lemma broadcast_shapes_last_one (s : Shape) (N : nat) :
  broadcast_shapes (s ++ [N]) (s ++ [1]) = Some (s ++ [N]).
Proof.
  unfold broadcast_shapes. rewrite !rev_app_distr. simpl.
  rewrite broadcast_rev_refl.
  destruct N as [|[|N]]; simpl; rewrite rev_involutive; reflexivity.
Qed.

(** Adding the mean, unsqueezed in front, to [N] draws. *)
Lemma tadd_unsqueeze_first (z m : Tensor F) (N : nat) :
  shape z = N :: shape m ->
  exists t, tadd z (unsqueeze_first m) = Ok t /\ shape t = N :: shape m.
Proof.
  intro Hz. unfold tadd, tbinop, unsqueeze_first. cbn [shape]. rewrite Hz.
  rewrite broadcast_shapes_first_one. simpl.
  eexists. split; reflexivity.
Qed.

(** Adding the mean, unsqueezed at the end, to the transformed samples. *)
Lemma tadd_unsqueeze_last (x m : Tensor F) (N : nat) :
  shape x = shape m ++ [N] ->
  exists t, tadd x (unsqueeze_last m) = Ok t /\ shape t = shape m ++ [N].
Proof.
  intro Hx. unfold tadd, tbinop, unsqueeze_last. cbn [shape]. rewrite Hx.
  rewrite broadcast_shapes_last_one. simpl.
  eexists. split; reflexivity.
Qed.

(** The tail of [rsample] on samples in the operator's layout. *)
Lemma apply_root_shape {LL : LazyTensorLaws F L}
    (d : MultivariateNormal F L) (S b : Shape) (n k : nat)
    (root : L) (x : Tensor F) :
  shape (loc d) = b ++ [n] ->
  lt_shape root = b ++ [n; k] ->
  shape x = b ++ [k; numel S] ->
  exists t, apply_root d S root x = Ok t /\ shape t = S ++ b ++ [n].
Proof.
  intros Hl Hr Hx. unfold apply_root.
  destruct (lt_matmul_shape root x b b b n k (numel S) Hr Hx
              (broadcast_shapes_refl b)) as (r1 & E1 & S1).
  rewrite E1. simpl.
  destruct (tadd_unsqueeze_last r1 (loc d) (numel S)) as (r2 & E2 & S2).
  { rewrite S1, Hl, <- app_assoc. reflexivity. }
  rewrite E2. simpl.
  destruct (permute_sample_first r2 (numel S) (shape (loc d)) S2)
    as (r3 & E3 & S3).
  unfold dim at 2. rewrite E3. simpl.
  destruct (view_ok r3 (S ++ shape (loc d))) as (r4 & E4 & S4).
  { rewrite S3, numel_app. reflexivity. }
  rewrite E4. exists r4. split; [reflexivity|]. rewrite S4, Hl. reflexivity.
Qed.

(** The layout in which the root is applied: the base samples reshaped to
    [N x loc.shape] and permuted so that the [N] samples come last. *)
Lemma base_samples_layout (d : MultivariateNormal F L) (S : Shape)
    (base_samples : Tensor F) :
  shape base_samples = S ++ shape (loc d) ->
  numel (shape (loc d)) <> 0 ->
  exists v layout,
    view_infer base_samples (shape (loc d)) = Ok v /\
    permute v (seq 1 (dim (loc d)) ++ [0]) = Ok layout /\
    shape layout = shape (loc d) ++ [numel S].
Proof.
  intros Hs Hnz.
  destruct (view_infer_ok base_samples S (shape (loc d)) Hs Hnz) as (v & Ev & Sv).
  destruct (permute_sample_last v (numel S) (shape (loc d)) Sv) as (l & El & Sl).
  exists v, l. repeat split; assumption.
Qed.

(** No step after the size check reports a size error of the base samples. *)
Lemma bind_no_size_error {A B : Type} (m : result A) (k : A -> result B) :
  no_size_error m -> (forall x, no_size_error (k x)) -> no_size_error (bind m k).
Proof.
  intros Hm Hk e a. destruct m as [x|e']; simpl.
  - apply Hk.
  - intro H. injection H as ->. apply (Hm e a). reflexivity.
Qed.

Lemma ok_no_size_error {A : Type} (x : A) : no_size_error (Ok x).
Proof. intros e a. discriminate. Qed.

Lemma lift_no_size_error {A : Type} (o : option A) :
  no_size_error (lift OperatorError o).
Proof. intros e a. destruct o; discriminate. Qed.

Lemma view_no_size_error (t : Tensor F) (s : Shape) : no_size_error (view t s).
Proof. intros e a. unfold view. destruct (_ =? _); discriminate. Qed.

Lemma view_infer_no_size_error (t : Tensor F) (s : Shape) :
  no_size_error (view_infer t s).
Proof.
  intros e a. unfold view_infer.
  destruct (numel s =? 0); [discriminate|].
  destruct (_ =? 0); [apply view_no_size_error|discriminate].
Qed.

Lemma permute_no_size_error (t : Tensor F) (p : list nat) :
  no_size_error (permute t p).
Proof. intros e a. unfold permute. destruct (_ && _); discriminate. Qed.

Lemma tadd_no_size_error (x y : Tensor F) : no_size_error (tadd x y).
Proof.
  intros e a. unfold tadd, tbinop.
  destruct (broadcast_shapes (shape x) (shape y)); discriminate.
Qed.

Lemma adjust_for_rank_no_size_error (root : L) (t : Tensor F) :
  no_size_error (adjust_for_rank root t).
Proof.
  intros e a. unfold adjust_for_rank, index_neg1, index_neg2, slice_rows.
  destruct (rev (lt_shape root)); [discriminate|]. simpl.
  destruct (rev (shape t)) as [|? [|? ?]]; try discriminate. simpl.
  destruct (_ <? _); [discriminate|].
  destruct (_ <? _); discriminate.
Qed.

Lemma reparameterize_no_size_error (d : MultivariateNormal F L) (covar : L)
    (base_samples : Tensor F) :
  no_size_error (reparameterize d covar base_samples).
Proof.
  unfold reparameterize. cbv zeta.
  apply bind_no_size_error; [apply view_infer_no_size_error|intro].
  apply bind_no_size_error; [apply permute_no_size_error|intro].
  apply bind_no_size_error; [apply lift_no_size_error|intro].
  apply bind_no_size_error; [apply adjust_for_rank_no_size_error|intro].
  unfold apply_root.
  apply bind_no_size_error; [apply lift_no_size_error|intro].
  apply bind_no_size_error; [apply tadd_no_size_error|intro].
  apply bind_no_size_error; [apply permute_no_size_error|intro].
  apply view_no_size_error.
Qed.

(** C4, amended: with explicit [base_samples], [rsample] raises the size error
    exactly when the trailing [loc.dim()] sizes of [base_samples] differ from
    the whole shape of the mean (batch sizes included), naming both shapes;
    otherwise the leading sizes are taken as the sample shape and the
    computation goes on without that error. *)
Theorem base_samples_size_check :
  forall (d : MultivariateNormal F L) (covar : L) (S0 : Shape)
         (base_samples : Tensor F) (noise : Noise F),
    lazy_covariance_matrix d = Ok covar ->
    ((exists e a, rsample d S0 (Some base_samples) noise
                  = Err (BaseSamplesSizeError e a)) <->
     shape (loc d) <> py_slice_from_neg (dim (loc d)) (shape base_samples)) /\
    (shape (loc d) <> py_slice_from_neg (dim (loc d)) (shape base_samples) ->
     rsample d S0 (Some base_samples) noise
     = Err (BaseSamplesSizeError (shape (loc d)) (shape base_samples))) /\
    (shape (loc d) = py_slice_from_neg (dim (loc d)) (shape base_samples) ->
     rsample d S0 (Some base_samples) noise = reparameterize d covar base_samples /\
     (shape (loc d) <> [] ->
      shape base_samples
      = py_slice_to (Z.of_nat (dim base_samples) - Z.of_nat (dim (loc d)))
          (shape base_samples) ++ shape (loc d))).
Proof.
  intros d covar S0 base_samples noise Hc.
  assert (Hne : shape (loc d) <> py_slice_from_neg (dim (loc d)) (shape base_samples) ->
                rsample d S0 (Some base_samples) noise
                = Err (BaseSamplesSizeError (shape (loc d)) (shape base_samples))).
  { intro H. unfold rsample. rewrite Hc. simpl.
    apply shape_eqb_neq in H. rewrite H. reflexivity. }
  assert (Heq : shape (loc d) = py_slice_from_neg (dim (loc d)) (shape base_samples) ->
                rsample d S0 (Some base_samples) noise
                = reparameterize d covar base_samples).
  { intro H. unfold rsample. rewrite Hc. simpl.
    apply shape_eqb_eq in H. rewrite H. reflexivity. }
  split; [|split].
  - split.
    + intros (e & a & H) E. rewrite (Heq E) in H.
      exact (reparameterize_no_size_error _ _ _ _ _ H).
    + intro H. eauto.
  - assumption.
  - intro H. split; [auto|]. intro Hnil.
    unfold py_slice_from_neg in H.
    destruct (dim (loc d) =? 0) eqn:E.
    { apply Nat.eqb_eq in E. apply length_zero_iff_nil in E. contradiction. }
    unfold lastn in H. unfold py_slice_to, dim.
    assert (Hlen : length (shape (loc d)) <= length (shape base_samples)).
    { rewrite H at 1. rewrite length_skipn. lia. }
    destruct (Z.of_nat (length (shape base_samples))
              - Z.of_nat (length (shape (loc d))) <? 0)%Z eqn:E2;
      [apply Z.ltb_lt in E2; lia|].
    replace (Z.to_nat (Z.of_nat (length (shape base_samples))
                       - Z.of_nat (length (shape (loc d)))))
      with (length (shape base_samples) - dim (loc d)) by (unfold dim; lia).
    rewrite <- (firstn_skipn (length (shape base_samples) - dim (loc d))
                  (shape base_samples)) at 1.
    f_equal. symmetry. exact H.
Qed.

(** On base samples of the right size, [rsample] adjusts the samples in the
    operator's layout to the rank of the root and applies the root. *)
Lemma rsample_on_layout
    (d : MultivariateNormal F L) (covar root : L) (S0 S b : Shape) (n : nat)
    (base_samples : Tensor F) (noise : Noise F) :
  lazy_covariance_matrix d = Ok covar ->
  shape (loc d) = b ++ [n] ->
  numel (b ++ [n]) <> 0 ->
  shape base_samples = S ++ b ++ [n] ->
  lt_root covar = Some root ->
  exists layout,
    shape layout = b ++ [n; numel S] /\
    rsample d S0 (Some base_samples) noise
    = (bs <- adjust_for_rank root layout ;; apply_root d S root bs).
Proof.
  intros Hc Hl Hnz Hs Hr.
  rewrite <- Hl in Hs, Hnz.
  destruct (base_samples_layout d S base_samples Hs Hnz) as (v & layout & Ev & El & Sl).
  exists layout. split.
  { rewrite Sl, Hl, <- app_assoc. reflexivity. }
  assert (Hcheck : shape_eqb (shape (loc d))
                     (py_slice_from_neg (dim (loc d)) (shape base_samples)) = true).
  { apply shape_eqb_eq. rewrite Hs. unfold dim.
    rewrite py_slice_from_neg_app; [reflexivity|].
    rewrite Hl. destruct b; discriminate. }
  unfold rsample. rewrite Hc. simpl. rewrite Hcheck. simpl.
  unfold reparameterize. rewrite Ev. simpl. rewrite El. simpl.
  rewrite Hr. simpl. unfold dim. rewrite Hs, py_slice_to_app. reflexivity.
Qed.

(** The three cases of the rank adjustment. *)
Lemma adjust_for_rank_cases (root : L) (layout : Tensor F) (b : Shape) (n N k : nat) :
  shape layout = b ++ [n; N] ->
  index_neg1 (lt_shape root) = Ok k ->
  (k < n -> adjust_for_rank root layout
            = Ok (mkTensor (b ++ [k; N]) (entry layout))) /\
  (k = n -> adjust_for_rank root layout = Ok layout) /\
  (n < k -> adjust_for_rank root layout = Err IncompatibleDimensionError).
Proof.
  intros Hlay Hk. unfold adjust_for_rank. rewrite Hk. simpl.
  rewrite Hlay, index_neg2_app. simpl.
  split; [|split]; intro H.
  - apply Nat.ltb_lt in H. rewrite H.
    unfold slice_rows. rewrite Hlay, rev_app_distr. simpl.
    rewrite rev_involutive. apply Nat.ltb_lt in H.
    replace (Nat.min k n) with k by lia. reflexivity.
  - subst k. rewrite Nat.ltb_irrefl. reflexivity.
  - assert (E1 : (k <? n) = false) by (apply Nat.ltb_ge; lia).
    assert (E2 : (n <? k) = true) by (apply Nat.ltb_lt; lia).
    rewrite E1, E2. reflexivity.
Qed.

(** C7, amended: for a distribution whose mean and covariance both carry the
    batch shape [b] around an event of size [n]: [sample(S)] has shape
    [S + b + (n,)] for every sample shape [S] without a zero size; and when
    the mean has at least one entry, [rsample] on base samples of shape
    [S + b + (n,)] has that shape for every sample shape [S], provided the
    root of the covariance has shape [b + (n, k)] with a rank [k] that does
    not exceed [n]. *)
Theorem sample_shape_spec :
  LazyTensorLaws F L ->
  forall (d : MultivariateNormal F L) (covar : L) (b : Shape) (n : nat)
         (noise : Noise F),
    full_batch d covar b n ->
    (forall S : Shape, numel S <> 0 ->
       exists t, sample d S None noise = Ok t /\ shape t = S ++ b ++ [n]) /\
    (numel (b ++ [n]) <> 0 ->
     forall (S S0 : Shape) (base_samples : Tensor F) (root : L) (k : nat),
       shape base_samples = S ++ b ++ [n] ->
       lt_root covar = Some root -> lt_shape root = b ++ [n; k] -> k <= n ->
       exists t, rsample d S0 (Some base_samples) noise = Ok t /\
                 shape t = S ++ b ++ [n]).
Proof.
  intros LL d covar b n noise (Hc & Hl & Hcs). split.
  - intros S HS. unfold sample, rsample. rewrite Hc. simpl.
    destruct (numel S =? 0) eqn:E; [apply Nat.eqb_eq in E; contradiction|].
    destruct (lt_zero_mean_mvn_samples_shape covar b n (numel S) noise Hcs)
      as (z & Ez & Sz).
    rewrite Ez. simpl.
    destruct (tadd_unsqueeze_first z (loc d) (numel S)) as (r & Er & Sr).
    { rewrite Sz, Hl. reflexivity. }
    rewrite Er. simpl.
    destruct (view_ok r (S ++ shape (loc d))) as (t & Et & St).
    { rewrite Sr, numel_app. reflexivity. }
    exists t. rewrite Et, St, Hl. split; reflexivity.
  - intros Hnz S S0 base_samples root k Hs Hr Hrs Hk.
    assert (Hk1 : index_neg1 (lt_shape root) = Ok k).
    { rewrite Hrs. change (b ++ [n; k]) with (b ++ [n] ++ [k]).
      rewrite app_assoc. apply index_neg1_app. }
    destruct (rsample_on_layout d covar root S0 S b n base_samples noise
                Hc Hl Hnz Hs Hr) as (layout & Hlay & ->).
    destruct (adjust_for_rank_cases root layout b n (numel S) k Hlay Hk1)
      as (Hlt & Heq & _).
    destruct (Nat.lt_ge_cases k n) as [Hlt'|Hge].
    + rewrite (Hlt Hlt'). simpl.
      apply apply_root_shape with (n := n) (k := k); auto.
    + assert (k = n) by lia. subst k. rewrite (Heq eq_refl). simpl.
      apply apply_root_shape with (n := n) (k := n); auto.
Qed.

End Sampling.

(** ** The ELBO objective *)

Section Objective.

Context {F : Type} {SF : Scalar F} {L : Type} {LT : LazyTensor F L}
        {TB : TorchMVN F L}.

(** The two return paths of [forward] on the same inputs: whatever the tuple
    path returns as its third term is the accumulated [log_prior] divided by
    [num_data] once more, while the combined path adds [log_prior] itself. *)
Lemma forward_terms_and_combined
    (self : ApproximateMarginalLogLikelihood F L)
    (dist : MultivariateNormal F L) (target : Tensor F) (r : ForwardResult F) :
  forward (with_combine_terms self false) dist target = Ok r ->
  exists log_likelihood kl_divergence log_prior added_loss,
    (added_loss_terms (model self) = [] /\
     r = Terms [log_likelihood; kl_divergence;
                tdiv log_prior (f_of_Z (num_data self))]
     \/
     added_loss_terms (model self) <> [] /\
     r = Terms [log_likelihood; kl_divergence;
                tdiv log_prior (f_of_Z (num_data self)); added_loss]) /\
    forward (with_combine_terms self true) dist target
    = (a <- tsub log_likelihood kl_divergence ;;
       b <- tadd a log_prior ;;
       c <- tsub b added_loss ;;
       Ok (Combined c)).
Proof.
  unfold forward, _kl_divergence. simpl.
  destruct (_log_likelihood_term self dist target) as [ll|]; simpl; [|discriminate].
  destruct (kl_mvn_mvn _ _) as [kl|]; simpl; [|discriminate].
  destruct (feqb (beta self) fzero); simpl; [discriminate|].
  match goal with
  | |- context [bind ?m _] => destruct m as [kl'|]; simpl; [|discriminate]
  end.
  destruct (accumulate _ (added_loss_terms (model self))) as [al|]; simpl;
    [|discriminate].
  destruct (accumulate _ (map _ (named_priors self))) as [lp|]; simpl;
    [|discriminate].
  intro H. exists (tdiv ll (f_of_Z (Z.of_nat (numel (event_shape dist))))), kl', lp, al.
  split; [|reflexivity].
  destruct (added_loss_terms (model self)); injection H as <-.
  - left. split; reflexivity.
  - right. split; [discriminate|reflexivity].
Qed.

(** The tuple has three terms without added losses and four with them. *)
Lemma forward_terms_count
    (self : ApproximateMarginalLogLikelihood F L)
    (dist : MultivariateNormal F L) (target : Tensor F) (r : ForwardResult F) :
  combine_terms self = false ->
  forward self dist target = Ok r ->
  exists ts, r = Terms ts /\
    (added_loss_terms (model self) = [] -> length ts = 3) /\
    (added_loss_terms (model self) <> [] -> length ts = 4).
Proof.
  intros Hc. unfold forward, _kl_divergence. rewrite Hc.
  repeat match goal with
  | |- context [bind ?m _] => destruct m; simpl; [|discriminate]
  end.
  destruct (added_loss_terms (model self)); intro H; injection H as <-;
    eexists; (split; [reflexivity|]); split; intro; try reflexivity;
    try discriminate; contradiction.
Qed.

End Objective.

(** ** The real numbers and the dense operator meet the contracts *)


Lemma Req_bool_false (x y : R) : x <> y -> Req_bool x y = false.
Proof. unfold Req_bool. destruct (Req_dec_T x y); [contradiction|auto]. Qed.


Lemma rev_eq_app2 {A : Type} (l b : list A) (x y : A) :
  rev l = y :: x :: b -> l = rev b ++ [x; y].
Proof.
  intro H. rewrite <- (rev_involutive l), H. simpl.
  rewrite <- app_assoc. reflexivity.
Qed.

Lemma to_option_some {A : Type} (r : result A) (a : A) :
  to_option r = Some a -> r = Ok a.
Proof. destruct r; simpl; congruence. Qed.

Lemma DenseOperator_laws {F : Type} {SF : Scalar F} :
  @LazyTensorLaws F SF (Tensor F) DenseOperator.
Proof.
  split; simpl.
  - reflexivity.
  - reflexivity.
  - intro t. apply teq_refl.
  - reflexivity.
  - intros l c. apply teq_refl.
  - intros l l' sizes H. unfold dense_repeat in H.
    destruct (rev sizes) as [|[|[|?]] [|[|[|?]] [|? ?]]]; try discriminate.
    apply to_option_some in H. apply trepeat_entries in H. apply H.
  - intros l l' sizes H. unfold dense_repeat in H.
    destruct (rev sizes) as [|[|[|?]] [|[|[|?]] [|? ?]]]; try discriminate.
    apply to_option_some in H. exists l'. split; [assumption|apply teq_refl].
  - intros l rhs iq ld H. unfold dense_inv_quad_logdet, dense_logdet in H.
    destruct (rev (shape l)) as [|n2 [|n1 b]] eqn:El; try discriminate.
    apply rev_eq_app2 in El. rewrite El, drop_last2_app.
    destruct (rev (shape rhs)) as [|k [|m br]]; try discriminate;
      destruct (n1 =? n2); simpl in H; try discriminate.
    destruct ((m =? n1) && shape_eqb b br); [|discriminate].
    injection H as <- <-. split; reflexivity.
  - intros l ld H. unfold dense_logdet in H.
    destruct (rev (shape l)) as [|n2 [|n1 b]] eqn:El; try discriminate.
    apply rev_eq_app2 in El. rewrite El, drop_last2_app.
    destruct (n1 =? n2); [|discriminate]. injection H as <-. reflexivity.
  - intros l b n num noise Hs.
    unfold dense_zero_mean_mvn_samples, dense_cholesky.
    rewrite Hs, rev_app_distr. simpl. rewrite Nat.eqb_refl, rev_involutive.
    eexists. split; reflexivity.
  - intros l b n Hs. unfold dense_cholesky.
    rewrite Hs, rev_app_distr. simpl. rewrite Nat.eqb_refl.
    eexists. exists n. split; reflexivity.
  - intros r x b bx bb n m k Hr Hx Hb. unfold dense_matmul.
    rewrite Hr, Hx, !rev_app_distr. simpl. rewrite Nat.eqb_refl, !rev_involutive, Hb.
    eexists. split; reflexivity.
Qed.

(** ** The claims on concrete inputs *)

Section Concrete.

Import Examples.
Open Scope R_scope.

(** The constructor builds the structured example instances. *)
Lemma init_p_std : __init__ (vector [0]) (LazyCov (eye [] 1)) false = Ok p_std.
Proof. reflexivity. Qed.

Lemma init_batch23 :
  __init__ (full [2; 3]%nat 0) (LazyCov (eye [2%nat] 3)) false = Ok batch23.
Proof. reflexivity. Qed.

(** C8, at a failing input: [expand] on the dense-mode [N([0], [[1]])] raises
    [AttributeError], because [_covar] is only assigned in structured mode. *)
Theorem expand_dense_failing_input :
  exists d : MVN,
    __init__ (vector [0]) (DenseCov (eye [] 1)) false = Ok d /\
    _islazy d = false /\
    expand d [2%nat] = Err AttributeError.
Proof.
  eexists. split; [reflexivity|]. split; reflexivity.
Qed.

(** C2, at a failing input: the KL divergence of the dense-mode
    [N([0], [[1]])] from a dense-mode batch of two standard normals has to
    expand the first operand, which raises [AttributeError]. *)
Theorem kl_dense_failing_input :
  exists p q : MVN,
    __init__ (vector [0]) (DenseCov (eye [] 1)) false = Ok p /\
    __init__ (full [2; 1]%nat 0) (DenseCov (eye [2%nat] 1)) false = Ok q /\
    _mul_broadcast_shape (batch_shape p) (batch_shape q) = Ok [2%nat] /\
    kl_mvn_mvn p q = Err AttributeError.
Proof.
  eexists. eexists. split; [reflexivity|]. split; [reflexivity|].
  split; reflexivity.
Qed.


(** Evaluating sums and Cholesky factors of the examples over the reals. *)
Ltac eval_real :=
  cbn;
  unfold fhalf, fone, fzero, fsum, chol, log_2pi; cbn;
  unfold fhalf, fone, fzero, fsum; cbn;
  repeat (progress rewrite ?Rminus_0_r, ?Rplus_0_l, ?Rmult_0_l, ?Rmult_0_r,
            ?sqrt_1, ?Rdiv_1_r, ?ln_1).

(** The scenario of the spec: [KL(N([0], [[1]]) || N([1], [[1]])) = 0.5]. *)
Lemma kl_example :
  exists t, kl_mvn_mvn p_std q_shifted = Ok t /\ shape t = [] /\ entry t [] = 1 / 2.
Proof.
  eexists. split; [reflexivity|]. split; [reflexivity|].
  eval_real. lra.
Qed.


(** The same scenario with both operands in dense mode: the batch shapes
    agree, nothing is expanded, and the result is again 0.5. *)
Lemma kl_example_dense :
  exists (p q : MVN) (t : Tensor R),
    __init__ (vector [0]) (DenseCov (eye [] 1)) false = Ok p /\
    __init__ (vector [1]) (DenseCov (eye [] 1)) false = Ok q /\
    kl_mvn_mvn p q = Ok t /\ shape t = [] /\ entry t [] = 1 / 2.
Proof.
  eexists. eexists. eexists.
  split; [reflexivity|]. split; [reflexivity|].
  split; [reflexivity|]. split; [reflexivity|].
  eval_real. lra.
Qed.

(** C3, at a failing input: with one prior of log probability 4 and two data
    points, the tuple path returns (3, 0, 1) while the combined path returns
    5, which is not [3 - 0 + 1]: the tuple path divides the prior term by
    [num_data] a second time. *)
Theorem forward_failing_input :
  exists ll kl lp c,
    forward (elbo false) p_std (vector [0]) = Ok (Terms [ll; kl; lp]) /\
    forward (elbo true) p_std (vector [0]) = Ok (Combined c) /\
    entry ll [] = 3 /\ entry kl [] = 0 /\ entry lp [] = 1 /\ entry c [] = 5 /\
    entry c [] <> entry ll [] - entry kl [] + entry lp [].
Proof.
  assert (Hb : Req_bool 1 0 = false) by (apply Req_bool_false; lra).
  eexists. eexists. eexists. eexists.
  split. { unfold forward. cbn. rewrite Hb. cbn. reflexivity. }
  split. { unfold forward. cbn. rewrite Hb. cbn. reflexivity. }
  repeat split; try (intro H; revert H); eval_real; lra.
Qed.



(** A difference of batch shape [4] against an operator of batch shape [2]:
    the operator is tiled twice. *)
Lemma match_batch_shape_spec_witness :
  exists covar',
    match_batch_shape (full [4; 2]%nat 0) (eye [2%nat] 2)
    = Ok (full [4; 2]%nat 0, covar') /\
    lt_shape covar' = [4; 2; 2]%nat.
Proof.
  assert (Hne : drop_last1 (shape (full [4; 2]%nat 0)) <> [2%nat]) by discriminate.
  destruct (match_batch_shape_spec DenseOperator_laws (full [4; 2]%nat 0)
              (eye [2%nat] 2) [2%nat] 2 2 eq_refl Hne) as [_ H].
  destruct H as [E _].
  - simpl. lia.
  - repeat constructor; discriminate.
  - eexists. split; [rewrite E; reflexivity|reflexivity].
Defined.

(** Five draws from a batch of two three-dimensional normals, and [rsample]
    on base samples for five draws and for none. *)
Lemma sample_shape_spec_witness :
  (exists t, sample batch23 [5%nat] None no_noise = Ok t /\
             shape t = [5; 2; 3]%nat) /\
  (exists t, rsample batch23 [] (Some (full [5; 2; 3]%nat 1)) no_noise = Ok t /\
             shape t = [5; 2; 3]%nat) /\
  (exists t, rsample batch23 [] (Some (full [0; 2; 3]%nat 1)) no_noise = Ok t /\
             shape t = [0; 2; 3]%nat).
Proof.
  assert (Hfb : full_batch batch23 (eye [2%nat] 3) [2%nat] 3)
    by (repeat split; reflexivity).
  assert (HS : numel [5%nat] <> 0%nat) by discriminate.
  assert (Hnz : numel ([2%nat] ++ [3%nat]) <> 0%nat) by discriminate.
  assert (Hr : exists root, lt_root (eye [2%nat] 3) = Some root /\
                            lt_shape root = [2%nat] ++ [3; 3]%nat)
    by (eexists; split; reflexivity).
  destruct Hr as (root & Hr & Hrs).
  destruct (sample_shape_spec DenseOperator_laws batch23 (eye [2%nat] 3)
              [2%nat] 3 no_noise Hfb) as [H1 H2].
  split; [exact (H1 [5%nat] HS)|]. split.
  - exact (H2 Hnz [5%nat] [] (full [5; 2; 3]%nat 1) root 3%nat eq_refl Hr Hrs
              (le_n 3)).
  - exact (H2 Hnz [0%nat] [] (full [0; 2; 3]%nat 1) root 3%nat eq_refl Hr Hrs
              (le_n 3)).
Defined.

(** C7, refuted as stated: [sample([5])] on a batch of two three-dimensional
    normals has shape [5 x 2 x 3], not [[5] + event_shape = 5 x 3]; and base
    samples of shape [5 x 3] are rejected. *)
Lemma sample_shape_counterexample :
  event_shape batch23 = [3%nat] /\
  (exists t, sample batch23 [5%nat] None no_noise = Ok t /\
             shape t = [5; 2; 3]%nat /\
             shape t <> [5%nat] ++ event_shape batch23) /\
  rsample batch23 [] (Some (full ([5%nat] ++ event_shape batch23) 0)) no_noise
  = Err (BaseSamplesSizeError [2; 3]%nat [5; 3]%nat).
Proof.
  split; [reflexivity|]. split.
  - eexists. split; [reflexivity|]. split; [reflexivity|discriminate].
  - reflexivity.
Qed.

(** Base samples of shape [5 x 2 x 3] pass the size check of the batch of two
    three-dimensional normals, with sample shape [5]. *)
Lemma base_samples_size_check_witness :
  rsample batch23 [] (Some (full [5; 2; 3]%nat 0)) no_noise
  = reparameterize batch23 (eye [2%nat] 3) (full [5; 2; 3]%nat 0) /\
  [5; 2; 3]%nat = [5%nat] ++ shape (loc batch23).
Proof.
  destruct (base_samples_size_check batch23 (eye [2%nat] 3) []
              (full [5; 2; 3]%nat 0) no_noise eq_refl) as (_ & _ & H).
  destruct (H eq_refl) as [E Hs].
  split; [exact E|]. apply Hs. discriminate.
Defined.

(** C4, refuted as stated: the trailing size of base samples of shape
    [5 x 3] is the event shape [3] of the batch of two three-dimensional
    normals, and [rsample] still raises the size error. *)
Lemma base_samples_size_counterexample :
  lastn (length (event_shape batch23)) (shape (full [5; 3]%nat 0 : Tensor R))
  = event_shape batch23 /\
  rsample batch23 [] (Some (full [5; 3]%nat 0)) no_noise
  = Err (BaseSamplesSizeError [2; 3]%nat [5; 3]%nat).
Proof. split; reflexivity. Qed.



End Concrete.

(** ** Indices, offsets and broadcasting, continued *)

Lemma valid_index_length (s idx : list nat) :
  valid_index s idx -> length idx = length s.
Proof. apply Forall2_length. Qed.

Lemma valid_index_app (s1 s2 i1 i2 : list nat) :
  valid_index s1 i1 -> valid_index s2 i2 -> valid_index (s1 ++ s2) (i1 ++ i2).
Proof. apply Forall2_app. Qed.

Lemma valid_index_app_inv (s1 s2 i1 i2 : list nat) :
  length i1 = length s1 ->
  valid_index (s1 ++ s2) (i1 ++ i2) -> valid_index s1 i1 /\ valid_index s2 i2.
Proof.
  unfold valid_index. revert s1. induction i1 as [|x i1 IH]; intros [|y s1] Hl H;
    try discriminate.
  - split; [constructor|exact H].
  - simpl in H. inversion H; subst. simpl in Hl.
    destruct (IH s1) as [H1 H2]; [lia|assumption|].
    split; [constructor; assumption|assumption].
Qed.

(** The offset of an index lies within the tensor, and [unravel] inverts
    [ravel] on the indices of a shape. *)
Lemma ravel_lt (s idx : list nat) : valid_index s idx -> ravel s idx < numel s.
Proof.
  induction 1 as [|i n idx s Hi _ IH]; simpl; [lia|]. nia.
Qed.

Lemma unravel_ravel (s idx : list nat) :
  valid_index s idx -> unravel s (ravel s idx) = idx.
Proof.
  induction 1 as [|i n idx s Hi Hv IH]; [reflexivity|].
  cbn [ravel unravel].
  pose proof (ravel_lt s idx Hv) as Hlt.
  rewrite Nat.div_add_l by lia.
  rewrite (Nat.div_small _ _ Hlt), Nat.add_0_r.
  rewrite Nat.add_comm, Nat.Div0.mod_add, (Nat.mod_small _ _ Hlt), IH.
  reflexivity.
Qed.

Lemma ravel_app (s1 s2 i1 i2 : list nat) :
  length i1 = length s1 ->
  ravel (s1 ++ s2) (i1 ++ i2) = ravel s1 i1 * numel s2 + ravel s2 i2.
Proof.
  revert i1. induction s1 as [|n s1 IH]; intros [|i i1] Hl; try discriminate.
  - reflexivity.
  - cbn [app ravel]. rewrite IH by (simpl in Hl; lia). rewrite numel_app. lia.
Qed.

(** Broadcasting absorbs its result. *)
Lemma broadcast_rev_absorb (a b c : Shape) :
  broadcast_rev a b = Some c ->
  broadcast_rev a c = Some c /\ broadcast_rev b c = Some c.
Proof.
  revert b c. induction a as [|x a IH]; intros b c H.
  - simpl in H. injection H as <-. split; [reflexivity|apply broadcast_rev_refl].
  - destruct b as [|y b].
    + simpl in H. injection H as <-. split; [apply broadcast_rev_refl|reflexivity].
    + simpl in H. destruct (broadcast_rev a b) as [r|] eqn:E; [|discriminate].
      destruct (IH b r E) as [Ha Hb].
      destruct (x =? y) eqn:Exy.
      { apply Nat.eqb_eq in Exy. subst y. injection H as <-.
        simpl. rewrite Ha, Hb, Nat.eqb_refl. auto. }
      destruct (x =? 1) eqn:Ex1.
      { injection H as <-. simpl. rewrite Ha, Hb, Exy, Ex1, Nat.eqb_refl. auto. }
      destruct (y =? 1) eqn:Ey1; [|discriminate].
      injection H as <-. simpl. rewrite Ha, Hb, Nat.eqb_refl.
      rewrite Nat.eqb_sym in Exy. rewrite Exy, Ey1. auto.
Qed.

Lemma broadcast_shapes_absorb (a b c : Shape) :
  broadcast_shapes a b = Some c ->
  broadcast_shapes a c = Some c /\ broadcast_shapes b c = Some c.
Proof.
  unfold broadcast_shapes. intro H.
  destruct (broadcast_rev (rev a) (rev b)) as [r|] eqn:E; [|discriminate].
  simpl in H. injection H as <-. rewrite rev_involutive.
  destruct (broadcast_rev_absorb _ _ _ E) as [-> ->]. auto.
Qed.

(** Broadcasting two shapes that end in the same sizes. *)
Lemma broadcast_rev_same_prefix (s a b c : Shape) :
  broadcast_rev a b = Some c ->
  broadcast_rev (s ++ a) (s ++ b) = Some (s ++ c).
Proof.
  intro H. induction s as [|x s IH]; [exact H|].
  simpl. rewrite IH, Nat.eqb_refl. reflexivity.
Qed.

Lemma broadcast_shapes_same_suffix (a b c s : Shape) :
  broadcast_shapes a b = Some c ->
  broadcast_shapes (a ++ s) (b ++ s) = Some (c ++ s).
Proof.
  unfold broadcast_shapes. intro H.
  destruct (broadcast_rev (rev a) (rev b)) as [r|] eqn:E; [|discriminate].
  simpl in H. injection H as <-.
  rewrite !rev_app_distr, (broadcast_rev_same_prefix _ _ _ _ E). simpl.
  rewrite rev_app_distr, rev_involutive. reflexivity.
Qed.

(** A shape broadcasts with any shape that ends in it. *)
Lemma broadcast_rev_prefix (s p : Shape) : broadcast_rev s (s ++ p) = Some (s ++ p).
Proof.
  induction s as [|x s IH]; [reflexivity|].
  simpl. rewrite IH, Nat.eqb_refl. reflexivity.
Qed.

Lemma broadcast_shapes_suffix (s p : Shape) :
  broadcast_shapes s (p ++ s) = Some (p ++ s).
Proof.
  unfold broadcast_shapes. rewrite rev_app_distr, broadcast_rev_prefix. simpl.
  rewrite <- rev_app_distr, rev_involutive. reflexivity.
Qed.

(** The index read in an operand: last component, and leading components. *)
Lemma bindex_app_last (s idx : list nat) (n i : nat) :
  bindex (s ++ [n]) (idx ++ [i]) = bindex s idx ++ [if n =? 1 then 0 else i].
Proof. unfold bindex. rewrite !rev_app_distr. reflexivity. Qed.

Lemma bindex_last_valid (s idx : list nat) (n i : nat) :
  i < n -> bindex (s ++ [n]) (idx ++ [i]) = bindex s idx ++ [i].
Proof.
  intro H. rewrite bindex_app_last. destruct (n =? 1) eqn:E; [|reflexivity].
  apply Nat.eqb_eq in E. replace i with 0 by lia. reflexivity.
Qed.

Lemma zip_with_firstn_r {A B C : Type} (f : A -> B -> C) (a : list A) (b b' : list B) :
  length a = length b -> zip_with f a (b ++ b') = zip_with f a b.
Proof.
  revert b. induction a as [|x a IH]; intros [|y b] H; try discriminate.
  - destruct b'; reflexivity.
  - simpl. rewrite IH by (simpl in H; lia). reflexivity.
Qed.

Lemma bindex_suffix (s p idx : list nat) :
  valid_index s idx -> bindex s (p ++ idx) = idx.
Proof.
  intro H. rewrite <- (bindex_valid_same s idx H) at 2.
  unfold bindex. rewrite rev_app_distr, zip_with_firstn_r; [reflexivity|].
  rewrite !length_rev. symmetry. apply valid_index_length. assumption.
Qed.

Lemma lastn_1_app {A : Type} (l : list A) (x : A) : lastn 1 (l ++ [x]) = [x].
Proof. apply (lastn_app l [x]). Qed.

Lemma lastn_2_app {A : Type} (l : list A) (x y : A) : lastn 2 (l ++ [x; y]) = [x; y].
Proof. apply (lastn_app l [x; y]). Qed.

(** ** [variance] and [confidence_region] *)

Section Variance.

Context {F : Type} {SF : Scalar F} {L : Type} {LT : LazyTensor F L}
        {LM : LazyTensorMore F L} {TB : TorchMVN F L} {TM : TorchMVNMore F L}.

(** A view on the tensor's own shape re-reads the tensor. *)
Lemma view_same_shape (t : Tensor F) :
  exists t', view t (shape t) = Ok t' /\ shape t' = shape t /\
    forall idx, valid_index (shape t) idx -> entry t' idx = entry t idx.
Proof.
  unfold view. rewrite Nat.eqb_refl. eexists. split; [reflexivity|].
  split; [reflexivity|]. intros idx H. cbn [entry].
  rewrite unravel_ravel by assumption. reflexivity.
Qed.

(** What a well-formed structured instance knows about its shapes. *)
Lemma well_formed_shapes (d : MultivariateNormal F L) (covar : L)
    (bm bc : Shape) (n m : nat) :
  well_formed d ->
  lazy_covariance_matrix d = Ok covar ->
  shape (loc d) = bm ++ [n] ->
  lt_shape covar = bc ++ [m; m] ->
  broadcast_shapes bm bc = Some (batch_shape d) /\ event_shape d = [n].
Proof.
  intros (c & Hc & Hb & He) Hc' Hl Hs.
  rewrite Hc' in Hc. injection Hc as <-.
  rewrite Hl in Hb, He. rewrite Hs in Hb.
  rewrite drop_last2_app in Hb. unfold drop_last1 in Hb.
  rewrite removelast_last in Hb.
  split.
  - unfold _mul_broadcast_shape in Hb.
    destruct (broadcast_shapes bm bc); simpl in Hb; [|discriminate].
    injection Hb as ->. reflexivity.
  - rewrite He. apply lastn_1_app.
Qed.

Lemma variance_structured_entries
    {ML : LazyTensorMoreLaws F L}
    (d : MultivariateNormal F L) (covar : L) (bm bc : Shape) (n : nat) :
  _islazy d = true ->
  well_formed d ->
  lazy_covariance_matrix d = Ok covar ->
  shape (loc d) = bm ++ [n] ->
  lt_shape covar = bc ++ [n; n] ->
  exists v,
    variance d = Ok v /\
    shape v = batch_shape d ++ [n] /\
    forall ib i, valid_index (batch_shape d ++ [n]) (ib ++ [i]) ->
      entry v (ib ++ [i]) = entry (lt_dense covar) (bindex bc ib ++ [i; i]).
Proof.
  intros Hlazy Hwf Hc Hl Hs.
  destruct (well_formed_shapes d covar bm bc n n Hwf Hc Hl Hs) as [Hb He].
  destruct (lt_diag_ok covar bc n Hs) as (t & Et & St & Ht).
  destruct (view_same_shape t) as (t' & Et' & St' & Ht').
  apply broadcast_shapes_absorb in Hb as [_ Hb].
  pose proof (broadcast_shapes_same_suffix _ _ _ [n] Hb) as Hbn.
  unfold variance. rewrite Hlazy, Hc. cbn [bind]. rewrite Et. cbn [lift bind].
  rewrite He. unfold drop_last1.
  replace (removelast (shape t) ++ [n]) with (shape t)
    by (rewrite St, removelast_last; reflexivity).
  rewrite Et'. cbn [bind]. unfold texpand. rewrite St', St, Hbn, shape_eqb_refl.
  eexists. split; [reflexivity|]. split; [reflexivity|].
  intros ib i Hv. cbn [entry].
  pose proof (bindex_valid _ _ _ Hbn Hv) as Hv'.
  rewrite Ht' by (rewrite St; exact Hv').
  pose proof (valid_index_length _ _ Hv) as Hlen.
  rewrite !length_app in Hlen. simpl in Hlen.
  apply valid_index_app_inv in Hv as [_ Hi]; [|lia].
  inversion Hi; subst.
  rewrite bindex_last_valid in * by assumption.
  apply Ht. exact Hv'.
Qed.

(** X1: on a well-formed structured instance, [variance] has the shape
    [batch_shape + (n,)] and its entry at a batch index and position [i] is
    the diagonal entry [(i, i)] of the covariance matrix at that batch index,
    read through broadcasting when the covariance has fewer batch sizes. *)
Theorem variance_is_covariance_diagonal :
  LazyTensorMoreLaws F L ->
  forall (d : MultivariateNormal F L) (covar : L) (bm bc : Shape) (n : nat),
    _islazy d = true ->
    well_formed d ->
    lazy_covariance_matrix d = Ok covar ->
    shape (loc d) = bm ++ [n] ->
    lt_shape covar = bc ++ [n; n] ->
    exists v,
      variance d = Ok v /\
      shape v = batch_shape d ++ event_shape d /\
      shape v = batch_shape d ++ [n] /\
      forall ib i, valid_index (batch_shape d ++ [n]) (ib ++ [i]) ->
        entry v (ib ++ [i]) = entry (lt_dense covar) (bindex bc ib ++ [i; i]).
Proof.
  intros ML d covar bm bc n Hlazy Hwf Hc Hl Hs.
  destruct (variance_structured_entries d covar bm bc n Hlazy Hwf Hc Hl Hs)
    as (v & Ev & Sv & Hv).
  destruct (well_formed_shapes d covar bm bc n n Hwf Hc Hl Hs) as [_ He].
  exists v. rewrite He. auto.
Qed.

End Variance.

Section ConfidenceRegion.

Context {L : Type} {LT : LazyTensor R L} {LM : LazyTensorMore R L}
        {TB : TorchMVN R L} {TM : TorchMVNMore R L}.

Open Scope R_scope.

(** X2: over the real numbers, on a well-formed structured instance,
    [confidence_region] returns two tensors of shape [batch_shape + (n,)];
    wherever the diagonal entry of the covariance is not negative, they are
    the mean minus, and the mean plus, twice the square root of that entry,
    and the mean lies between them.  (On a negative entry torch's square
    root is not a number.) *)
Theorem confidence_region_two_stddev
    {ML : LazyTensorMoreLaws R L}
    (d : MultivariateNormal R L) (covar : L) (bm bc : Shape) (n : nat) :
  _islazy d = true ->
  well_formed d ->
  lazy_covariance_matrix d = Ok covar ->
  shape (loc d) = bm ++ [n] ->
  lt_shape covar = bc ++ [n; n] ->
  exists lower upper,
    confidence_region d = Ok (lower, upper) /\
    shape lower = batch_shape d ++ [n] /\
    shape upper = batch_shape d ++ [n] /\
    forall ib i, valid_index (batch_shape d ++ [n]) (ib ++ [i]) ->
      0 <= entry (lt_dense covar) (bindex bc ib ++ [i; i]) ->
      entry lower (ib ++ [i])
      = entry (loc d) (bindex (shape (loc d)) (ib ++ [i]))
        - sqrt (entry (lt_dense covar) (bindex bc ib ++ [i; i])) * 2 /\
      entry upper (ib ++ [i])
      = entry (loc d) (bindex (shape (loc d)) (ib ++ [i]))
        + sqrt (entry (lt_dense covar) (bindex bc ib ++ [i; i])) * 2 /\
      entry lower (ib ++ [i])
      <= entry (loc d) (bindex (shape (loc d)) (ib ++ [i]))
      <= entry upper (ib ++ [i]).
Proof.
  intros Hlazy Hwf Hc Hl Hs.
  destruct (variance_structured_entries d covar bm bc n Hlazy Hwf Hc Hl Hs)
    as (v & Ev & Sv & Hvar).
  destruct (well_formed_shapes d covar bm bc n n Hwf Hc Hl Hs) as [Hb _].
  apply broadcast_shapes_absorb in Hb as [Hb _].
  pose proof (broadcast_shapes_same_suffix _ _ _ [n] Hb) as Hbn.
  unfold confidence_region, stddev. rewrite Ev. cbn [bind]. cbv zeta.
  unfold tsub, tadd, tbinop, mean. cbn [shape tscale tsqrt].
  rewrite Hl, Sv, Hbn. cbn [lift bind].
  do 2 eexists. split; [reflexivity|].
  split; [reflexivity|]. split; [reflexivity|].
  intros ib i Hv Hpos. cbn [entry].
  rewrite (bindex_valid_same _ _ Hv).
  unfold tscale, tsqrt. cbn [entry]. rewrite (Hvar ib i Hv).
  change (@fsub R RScalar) with Rminus. change (@fadd R RScalar) with Rplus.
  change (@fmul R RScalar) with Rmult. change (@fsqrt R RScalar) with sqrt.
  change (@f_of_Z R RScalar 2) with 2.
  pose proof (sqrt_pos (entry (lt_dense covar) (bindex bc ib ++ [i; i]))).
  repeat split; lra.
Qed.

End ConfidenceRegion.

(** ** [to_multitask_from_batch] and [to_multitask] *)

Lemma index_of_app_in (k : nat) (a b : list nat) :
  In k a -> index_of k (a ++ b) = index_of k a.
Proof.
  induction a as [|x a IH]; intro H; [destruct H|].
  simpl. destruct (x =? k) eqn:E; [reflexivity|].
  f_equal. apply IH. destruct H as [->|H]; [|assumption].
  rewrite Nat.eqb_refl in E. discriminate.
Qed.

Lemma index_of_app_notin (k : nat) (a b : list nat) :
  ~ In k a -> index_of k (a ++ b) = length a + index_of k b.
Proof.
  induction a as [|x a IH]; intro H; [reflexivity|].
  simpl. destruct (x =? k) eqn:E.
  - apply Nat.eqb_eq in E. subst x. exfalso. apply H. left. reflexivity.
  - f_equal. apply IH. intro H'. apply H. right. assumption.
Qed.

Lemma index_of_seq (k a n : nat) : a <= k < a + n -> index_of k (seq a n) = k - a.
Proof.
  revert a. induction n as [|n IH]; intros a H; [lia|].
  simpl. destruct (a =? k) eqn:E.
  - apply Nat.eqb_eq in E. lia.
  - apply Nat.eqb_neq in E. rewrite IH by lia. lia.
Qed.

Lemma nth_map_seq {A : Type} (f : nat -> A) (a len n : nat) (d : A) :
  n < len -> nth n (map f (seq a len)) d = f (a + n).
Proof.
  intro H. rewrite (nth_indep _ d (f 0)) by (rewrite length_map, length_seq; exact H).
  rewrite map_nth, seq_nth by exact H. reflexivity.
Qed.

Section Multitask.

Context {F : Type} {SF : Scalar F} {L : Type} {LT : LazyTensor F L}
        {LM : LazyTensorMore F L} {TB : TorchMVN F L}.

(** The permutation of [to_multitask_from_batch]: the dimension at position
    [length s1] is moved behind all the others. *)
Lemma move_dim_last (t : Tensor F) (s1 s2 : Shape) (k : nat) :
  shape t = s1 ++ k :: s2 ->
  exists t',
    permute t (py_range 0 (length s1) ++ py_range (length s1 + 1) (dim t)
               ++ [length s1]) = Ok t' /\
    shape t' = s1 ++ s2 ++ [k] /\
    forall i1 i2 j, length i1 = length s1 -> length i2 = length s2 ->
      entry t' (i1 ++ i2 ++ [j]) = entry t (i1 ++ j :: i2).
Proof.
  intro Hs. unfold permute, py_range, dim. rewrite Hs.
  rewrite !length_app, !length_seq. cbn [length].
  rewrite Nat.sub_0_r.
  replace (length s1 + S (length s2) - (length s1 + 1)) with (length s2) by lia.
  replace (length s1 + (length s2 + 1) =? length s1 + S (length s2)) with true
    by (symmetry; apply Nat.eqb_eq; lia).
  rewrite is_permutation_spec.
  2:{ intros j Hj. rewrite !length_app, !length_seq in Hj. cbn [length] in Hj.
      apply in_or_app.
      destruct (Nat.lt_ge_cases j (length s1)) as [H1|H1];
        [left; apply in_seq; lia|right].
      apply in_or_app.
      destruct (Nat.eq_dec j (length s1)) as [->|H2];
        [right; left; reflexivity|left].
      apply in_seq. lia. }
  cbn [andb]. eexists. split; [reflexivity|]. cbn [shape entry]. split.
  - rewrite !map_app. cbn [map]. rewrite nth_middle. f_equal; [|f_equal].
    + transitivity (map (fun j => nth j s1 0) (seq 0 (length s1)));
        [|apply map_nth_seq0].
      apply map_ext_in. intros j Hj. apply in_seq in Hj. apply app_nth1. lia.
    + apply nth_ext with (d := 0) (d' := 0).
      { rewrite length_map, length_seq. reflexivity. }
      intros j Hj. rewrite length_map, length_seq in Hj.
      rewrite nth_map_seq by assumption.
      rewrite app_nth2 by lia.
      replace (length s1 + 1 + j - length s1) with (S j) by lia. reflexivity.
  - intros i1 i2 j H1 H2. f_equal.
    apply nth_ext with (d := 0) (d' := 0).
    { rewrite length_map, length_seq, length_app. cbn [length]. lia. }
    intros m Hm. rewrite length_map, length_seq in Hm.
    rewrite nth_map_seq by assumption.
    cbn [Nat.add].
    destruct (Nat.lt_ge_cases m (length s1)) as [Hlt|Hge].
    + rewrite index_of_app_in by (apply in_seq; lia).
      rewrite index_of_seq by lia. rewrite Nat.sub_0_r.
      rewrite !app_nth1 by lia. reflexivity.
    + rewrite index_of_app_notin by (rewrite in_seq; lia).
      rewrite length_seq.
      destruct (Nat.eq_dec m (length s1)) as [->|Hne].
      * rewrite index_of_app_notin by (rewrite in_seq; lia).
        rewrite length_seq. cbn [index_of]. rewrite Nat.eqb_refl.
        rewrite <- H1 at 2. rewrite nth_middle.
        rewrite app_assoc.
        replace (length s1 + (length s2 + 0)) with (length (i1 ++ i2))
          by (rewrite length_app; lia).
        apply nth_middle.
      * rewrite index_of_app_in by (apply in_seq; lia).
        rewrite index_of_seq by lia.
        rewrite (app_nth2 i1 (i2 ++ [j])), (app_nth2 i1 (j :: i2)) by lia.
        replace (length s1 + (m - (length s1 + 1)) - length i1)
          with (m - length i1 - 1) by lia.
        destruct (m - length i1) as [|q] eqn:Eq; [lia|].
        cbn [nth]. replace (S q - 1) with q by lia. apply app_nth1. lia.
Qed.

Lemma permute_not_value_error (t : Tensor F) (p : list nat) :
  permute t p <> Err ValueError.
Proof. unfold permute. destruct (_ && _); discriminate. Qed.

Lemma lazy_covariance_matrix_not_value_error (d : MultivariateNormal F L) :
  lazy_covariance_matrix d <> Err ValueError.
Proof.
  unfold lazy_covariance_matrix.
  destruct (_islazy d); [destruct (_covar d)|destruct (covariance_param d)];
    discriminate.
Qed.

(** X3: [to_multitask_from_batch] raises [ValueError] exactly when
    [task_dim] is below [-len(batch_shape)] or above [len(batch_shape)]; in
    particular [task_dim = len(batch_shape)] is not refused. *)
Theorem to_multitask_from_batch_value_error
    (d : MultivariateNormal F L) (task_dim : Z) :
  to_multitask_from_batch d task_dim = Err ValueError <->
  (task_dim < - Z.of_nat (length (batch_shape d)) \/
   Z.of_nat (length (batch_shape d)) < task_dim)%Z.
Proof.
  unfold to_multitask_from_batch. cbv zeta.
  set (len := Z.of_nat (length (batch_shape d))).
  assert (Hlen : (0 <= len)%Z) by (unfold len; lia).
  destruct (0 <=? task_dim)%Z eqn:E0;
    [apply Z.leb_le in E0|apply Z.leb_gt in E0].
  - destruct (task_dim <? 0)%Z eqn:E1; [apply Z.ltb_lt in E1; lia|].
    cbn [orb].
    destruct (len <? task_dim)%Z eqn:E2;
      [apply Z.ltb_lt in E2|apply Z.ltb_ge in E2].
    + split; [intros _; right; assumption|reflexivity].
    + split; [|lia]. intro H. exfalso.
      destruct (permute _ _) as [m|e] eqn:Ep; cbn [bind] in H.
      * destruct (lazy_covariance_matrix d) as [c|e] eqn:Ec; cbn [bind] in H;
          [discriminate|].
        injection H as ->. exact (lazy_covariance_matrix_not_value_error d Ec).
      * injection H as ->. exact (permute_not_value_error _ _ Ep).
  - destruct (len + task_dim <? 0)%Z eqn:E1;
      [apply Z.ltb_lt in E1|apply Z.ltb_ge in E1].
    + cbn [orb]. split; [intros _; left; lia|reflexivity].
    + cbn [orb].
      destruct (len <? len + task_dim)%Z eqn:E2; [apply Z.ltb_lt in E2; lia|].
      split; [|lia]. intro H. exfalso.
      destruct (permute _ _) as [m|e] eqn:Ep; cbn [bind] in H.
      * destruct (lazy_covariance_matrix d) as [c|e] eqn:Ec; cbn [bind] in H;
          [discriminate|].
        injection H as ->. exact (lazy_covariance_matrix_not_value_error d Ec).
      * injection H as ->. exact (permute_not_value_error _ _ Ep).
Qed.

Lemma to_multitask_from_batch_at
    (d : MultivariateNormal F L) (covar : L) (s1 s2 : Shape) (k : nat) :
  lazy_covariance_matrix d = Ok covar ->
  shape (loc d) = s1 ++ k :: s2 ->
  length s1 <= length (batch_shape d) ->
  exists m,
    to_multitask_from_batch d (Z.of_nat (length s1))
    = Ok {| mt_mean := m;
            mt_covariance_matrix :=
              {| base_lazy_tensor := covar;
                 block_dim := Z.of_nat (length s1) |} |} /\
    shape m = s1 ++ s2 ++ [k] /\
    forall i1 i2 j, length i1 = length s1 -> length i2 = length s2 ->
      entry m (i1 ++ i2 ++ [j]) = entry (loc d) (i1 ++ j :: i2).
Proof.
  intros Hc Hs Hle.
  destruct (move_dim_last (loc d) s1 s2 k Hs) as (m & Em & Sm & Hm).
  exists m. split; [|split; assumption].
  unfold to_multitask_from_batch. cbv zeta.
  destruct (0 <=? Z.of_nat (length s1))%Z eqn:E0; [|apply Z.leb_gt in E0; lia].
  destruct (Z.of_nat (length s1) <? 0)%Z eqn:E1; [apply Z.ltb_lt in E1; lia|].
  destruct (Z.of_nat (length (batch_shape d)) <? Z.of_nat (length s1))%Z eqn:E2;
    [apply Z.ltb_lt in E2; lia|].
  cbn [orb]. rewrite Nat2Z.id. unfold mean. rewrite Em. cbn [bind].
  rewrite Hc. reflexivity.
Qed.



End Multitask.

Section ToMultitask.

Context {F : Type} {SF : Scalar F} {L : Type} {LT : LazyTensor F L}
        {LM : LazyTensorMore F L} {TB : TorchMVN F L}.

Lemma structured_covar (d : MultivariateNormal F L) (covar : L) :
  _islazy d = true -> lazy_covariance_matrix d = Ok covar -> _covar d = Some covar.
Proof.
  unfold lazy_covariance_matrix. intros -> H.
  destruct (_covar d); simpl in H; [|discriminate]. injection H as ->. reflexivity.
Qed.

Lemma full_batch_shape (d : MultivariateNormal F L) (covar : L) (b : Shape) (n : nat) :
  well_formed d -> full_batch d covar b n ->
  batch_shape d = b /\ event_shape d = [n].
Proof.
  intros (c & Hc & Hb & He) (Hc' & Hl & Hs).
  rewrite Hc' in Hc. injection Hc as <-.
  rewrite Hl in Hb, He. rewrite Hs in Hb.
  rewrite drop_last2_app in Hb. unfold drop_last1 in Hb.
  rewrite removelast_last in Hb.
  unfold _mul_broadcast_shape in Hb. rewrite broadcast_shapes_refl in Hb.
  simpl in Hb. injection Hb as <-. split; [reflexivity|].
  rewrite He. apply lastn_1_app.
Qed.

(** [expand] of a structured instance whose mean and covariance carry the
    batch shape [b], to a batch shape [p ++ b]. *)
Lemma expand_full_batch {ML : LazyTensorMoreLaws F L}
    (d : MultivariateNormal F L) (covar : L) (b p : Shape) (n : nat) :
  _islazy d = true ->
  full_batch d covar b n ->
  exists new_covar,
    expand d (p ++ b)
    = Ok (mkMVN true
            (mkTensor (p ++ b ++ [n])
               (fun idx => entry (loc d) (bindex (b ++ [n]) idx)))
            (Some new_covar) None false (p ++ b) [n]) /\
    lt_shape new_covar = p ++ b ++ [n; n] /\
    forall idx, valid_index (p ++ b ++ [n; n]) idx ->
      entry (lt_dense new_covar) idx
      = entry (lt_dense covar) (bindex (b ++ [n; n]) idx).
Proof.
  intros Hlazy (Hc & Hl & Hs).
  pose proof (structured_covar d covar Hlazy Hc) as Hcov.
  destruct (lt_expand_ok covar (p ++ b ++ [n; n])) as (nc & Enc & Snc & Hnc).
  { rewrite Hs. apply broadcast_shapes_suffix. }
  exists nc. rewrite Hs in Hnc. split; [|split; assumption].
  unfold expand. rewrite Hl, lastn_1_app.
  unfold texpand. rewrite Hl, <- app_assoc, broadcast_shapes_suffix, shape_eqb_refl.
  cbn [bind]. rewrite Hcov. cbn [lift bind].
  rewrite Hs, lastn_2_app, <- app_assoc, Enc. cbn [lift bind].
  unfold __init__. cbn [shape]. rewrite Snc.
  rewrite (app_assoc p b [n; n]), drop_last2_app.
  unfold drop_last1. rewrite (app_assoc p b [n]), removelast_last.
  unfold _mul_broadcast_shape. rewrite broadcast_shapes_refl. cbn [lift bind].
  rewrite lastn_1_app. reflexivity.
Qed.

(** X5: on a well-formed structured instance whose mean and covariance
    carry the batch shape [b], [to_multitask(num_tasks)] passes to the
    multitask constructor a mean of shape [b + (n, num_tasks)] whose entry
    for every task is the entry of the original mean, and, with
    [block_dim = 0], an operator of shape [(num_tasks,) + b + (n, n)] whose
    matrix for every task is the original covariance matrix. *)
Theorem to_multitask_shares_mean_and_covariance {ML : LazyTensorMoreLaws F L}
    (d : MultivariateNormal F L) (covar : L) (b : Shape) (n num_tasks : nat) :
  _islazy d = true ->
  well_formed d ->
  full_batch d covar b n ->
  exists m tiled,
    to_multitask d num_tasks
    = Ok {| mt_mean := m;
            mt_covariance_matrix :=
              {| base_lazy_tensor := tiled; block_dim := 0 |} |} /\
    shape m = b ++ [n; num_tasks] /\
    (forall idx t, valid_index (b ++ [n]) idx ->
       entry m (idx ++ [t]) = entry (loc d) idx) /\
    lt_shape tiled = num_tasks :: b ++ [n; n] /\
    (forall idx t, valid_index (b ++ [n; n]) idx -> t < num_tasks ->
       entry (lt_dense tiled) (t :: idx) = entry (lt_dense covar) idx).
Proof.
  intros Hlazy Hwf Hfb.
  destruct (full_batch_shape d covar b n Hwf Hfb) as [Hb _].
  destruct (expand_full_batch d covar b [num_tasks] n Hlazy Hfb)
    as (nc & Ee & Snc & Hnc).
  unfold to_multitask. rewrite Hb, Ee. cbn [bind].
  match goal with |- context [to_multitask_from_batch ?x _] => set (d' := x) end.
  destruct (to_multitask_from_batch_at d' nc [] (b ++ [n]) num_tasks)
    as (m & Em & Sm & Hm); [reflexivity|reflexivity|simpl; lia|].
  exists m, nc. split; [exact Em|]. split.
  { rewrite Sm. simpl. rewrite <- app_assoc. reflexivity. }
  split; [|split; [exact Snc|]].
  - intros idx t Hv.
    pose proof (Hm [] idx t eq_refl (valid_index_length _ _ Hv)) as E.
    cbn [app] in E. rewrite E. unfold d'. cbn [loc entry].
    apply f_equal. apply (bindex_suffix (b ++ [n]) [t] idx Hv).
  - intros idx t Hv Ht. rewrite Hnc.
    + apply f_equal. apply (bindex_suffix (b ++ [n; n]) [t] idx Hv).
    + apply (valid_index_app [num_tasks] _ [t] idx); [|exact Hv].
      constructor; [exact Ht|constructor].
Qed.

(** X6: [to_multitask] begins with [expand], which reads [_covar]: on every
    instance built on the dense path of the constructor it raises and
    returns nothing. *)
Theorem to_multitask_dense_mode_raises (m t : Tensor F) (v : bool)
    (d : MultivariateNormal F L) (num_tasks : nat) :
  __init__ m (DenseCov t) v = Ok d ->
  exists e, to_multitask d num_tasks = Err e.
Proof.
  intro H. unfold to_multitask.
  destruct (expand_dense_mode_raises m t v d ([num_tasks] ++ batch_shape d) H)
    as (e & ->).
  exists e. reflexivity.
Qed.

End ToMultitask.

(** ** [rsample] and [sample], entry by entry *)

Lemma bindex_cons (s idx : list nat) (n i : nat) :
  length s = length idx ->
  bindex (n :: s) (i :: idx) = (if n =? 1 then 0 else i) :: bindex s idx.
Proof.
  intro H. unfold bindex. cbn [rev].
  rewrite zip_with_app by (rewrite !length_rev; exact H).
  rewrite rev_app_distr. reflexivity.
Qed.

Lemma unravel_cons_ravel (N : nat) (s il : list nat) (j : nat) :
  valid_index s il ->
  unravel (N :: s) (j * numel s + ravel s il) = j :: il.
Proof.
  intro H. pose proof (ravel_lt s il H) as Hlt. cbn [unravel].
  rewrite Nat.div_add_l by lia.
  rewrite (Nat.div_small _ _ Hlt), Nat.add_0_r.
  rewrite Nat.add_comm, Nat.Div0.mod_add, (Nat.mod_small _ _ Hlt).
  rewrite unravel_ravel by assumption. reflexivity.
Qed.

Section SamplingEntries.

Context {F : Type} {SF : Scalar F} {L : Type} {LT : LazyTensor F L}
        {LM : LazyTensorMore F L} {TB : TorchMVN F L}.

(** [view(-1, *s)] reads the tensor in row-major order. *)
Lemma view_infer_entries (t : Tensor F) (S s : Shape) :
  shape t = S ++ s -> numel s <> 0 ->
  exists t', view_infer t s = Ok t' /\ shape t' = numel S :: s /\
    forall iS il, valid_index S iS -> valid_index s il ->
      entry t' (ravel S iS :: il) = entry t (iS ++ il).
Proof.
  intros Hs Hnz. unfold view_infer.
  destruct (numel s =? 0) eqn:E; [apply Nat.eqb_eq in E; contradiction|].
  rewrite Hs, numel_app, Nat.Div0.mod_mul, Nat.div_mul by assumption.
  cbn [Nat.eqb]. unfold view. rewrite Hs, numel_app. cbn [numel fold_right].
  fold (numel s). rewrite Nat.eqb_refl.
  eexists. split; [reflexivity|]. split; [reflexivity|].
  intros iS il HS Hl. cbn [entry ravel]. fold (numel s).
  rewrite <- (ravel_app S s iS il) by (apply valid_index_length; exact HS).
  rewrite unravel_ravel by (apply valid_index_app; assumption).
  reflexivity.
Qed.

(** The two layout changes of [rsample], with their entries. *)
Lemma permute_sample_last_entries (t : Tensor F) (N : nat) (s : Shape) :
  shape t = N :: s ->
  exists t', permute t (seq 1 (length s) ++ [0]) = Ok t' /\
    shape t' = s ++ [N] /\
    forall il j, length il = length s -> entry t' (il ++ [j]) = entry t (j :: il).
Proof.
  intro Hs. destruct (move_dim_last t [] s N Hs) as (t' & E & S' & H).
  exists t'. split; [|split].
  - unfold py_range, dim in E. rewrite Hs in E. cbn [length Nat.add Nat.sub seq app] in E.
    rewrite Nat.sub_0_r in E. exact E.
  - exact S'.
  - intros il j Hl. apply (H [] il j eq_refl Hl).
Qed.

Lemma permute_sample_first_entries (t : Tensor F) (N : nat) (s : Shape) :
  shape t = s ++ [N] ->
  exists t', permute t ((dim t - 1) :: seq 0 (length s)) = Ok t' /\
    shape t' = N :: s /\
    forall il j, length il = length s -> entry t' (j :: il) = entry t (il ++ [j]).
Proof.
  intro Hs. destruct (permute_sample_first t N s Hs) as (t' & E & S').
  exists t'. split; [exact E|]. split; [exact S'|].
  intros il j Hl. revert E. unfold permute.
  destruct (_ && _); [|discriminate]. intro E. injection E as <-. cbn [entry].
  f_equal. unfold dim. rewrite Hs, length_app. cbn [length].
  replace (length s + 1 - 1) with (length s) by lia.
  apply nth_ext with (d := 0) (d' := 0).
  { rewrite length_map, length_seq, length_app. cbn [length]. lia. }
  intros m Hm. rewrite length_map, length_seq in Hm.
  rewrite nth_map_seq by assumption. cbn [Nat.add index_of].
  destruct (length s =? m) eqn:E.
  - apply Nat.eqb_eq in E. subst m. cbn [nth]. rewrite <- Hl, nth_middle. reflexivity.
  - apply Nat.eqb_neq in E. rewrite index_of_seq by lia. rewrite Nat.sub_0_r.
    cbn [nth]. rewrite app_nth1 by lia. reflexivity.
Qed.

(** The base samples in the operator's layout: sample number [ravel S iS]
    is the last coordinate. *)
Lemma rsample_on_layout_entries
    (d : MultivariateNormal F L) (covar root : L) (S0 S b : Shape) (n : nat)
    (base_samples : Tensor F) (noise : Noise F) :
  lazy_covariance_matrix d = Ok covar ->
  shape (loc d) = b ++ [n] ->
  numel (b ++ [n]) <> 0 ->
  shape base_samples = S ++ b ++ [n] ->
  lt_root covar = Some root ->
  exists layout,
    shape layout = b ++ [n; numel S] /\
    (forall iS il, valid_index S iS -> valid_index (b ++ [n]) il ->
       entry layout (il ++ [ravel S iS]) = entry base_samples (iS ++ il)) /\
    rsample d S0 (Some base_samples) noise
    = (bs <- adjust_for_rank root layout ;; apply_root d S root bs).
Proof.
  intros Hc Hl Hnz Hs Hr.
  destruct (view_infer_entries base_samples S (b ++ [n]) Hs Hnz) as (v & Ev & Sv & Hv).
  destruct (permute_sample_last_entries v (numel S) (b ++ [n]) Sv)
    as (layout & El & Sl & Hlay).
  exists layout. split; [|split].
  - rewrite Sl, <- app_assoc. reflexivity.
  - intros iS il HS Hil. rewrite Hlay by (apply valid_index_length; exact Hil).
    apply Hv; assumption.
  - assert (Hcheck : shape_eqb (shape (loc d))
                       (py_slice_from_neg (dim (loc d)) (shape base_samples)) = true).
    { apply shape_eqb_eq. rewrite Hs, Hl. unfold dim. rewrite Hl.
      rewrite py_slice_from_neg_app; [reflexivity|].
      destruct b; discriminate. }
    unfold rsample. rewrite Hc. cbn [bind]. rewrite Hcheck. cbn [negb].
    unfold reparameterize. rewrite Hl, Ev. cbn [bind].
    unfold dim at 1. rewrite Hl, El. cbn [bind]. rewrite Hr. cbn [lift bind].
    unfold dim. rewrite Hl, Hs, py_slice_to_app. reflexivity.
Qed.

(** C5: on base samples of the right size, laid out for the root with the
    event position as row and the sample number as column, a root of rank
    below the number of rows keeps the first [rank] rows of the samples and
    the computation goes on with them (with all the rows when the rank is
    the number of rows); a root of rank above the number of rows raises
    "Incompatible dimension of base_samples". *)
Theorem rank_adjustment :
  forall (d : MultivariateNormal F L) (covar root : L) (S0 S b : Shape) (n k : nat)
         (base_samples : Tensor F) (noise : Noise F),
    lazy_covariance_matrix d = Ok covar ->
    shape (loc d) = b ++ [n] ->
    numel (b ++ [n]) <> 0 ->
    shape base_samples = S ++ b ++ [n] ->
    lt_root covar = Some root ->
    index_neg1 (lt_shape root) = Ok k ->
    exists layout,
      shape layout = b ++ [n; numel S] /\
      (forall iS il, valid_index S iS -> valid_index (b ++ [n]) il ->
         entry layout (il ++ [ravel S iS]) = entry base_samples (iS ++ il)) /\
      (k < n ->
       exists truncated,
         slice_rows k layout = Ok truncated /\
         shape truncated = b ++ [k; numel S] /\
         entry truncated = entry layout /\
         rsample d S0 (Some base_samples) noise = apply_root d S root truncated) /\
      (k = n ->
       rsample d S0 (Some base_samples) noise = apply_root d S root layout) /\
      (n < k ->
       rsample d S0 (Some base_samples) noise = Err IncompatibleDimensionError).
Proof.
  intros d covar root S0 S b n k base_samples noise Hc Hl Hnz Hs Hr Hk.
  destruct (rsample_on_layout_entries d covar root S0 S b n base_samples noise
              Hc Hl Hnz Hs Hr) as (layout & Hlay & Hent & Hrs).
  destruct (adjust_for_rank_cases root layout b n (numel S) k Hlay Hk)
    as (Hlt & Heq & Hgt).
  exists layout. split; [assumption|]. split; [exact Hent|].
  split; [|split]; intro H.
  - exists (mkTensor (b ++ [k; numel S]) (entry layout)).
    split.
    + unfold slice_rows. rewrite Hlay, rev_app_distr. simpl.
      rewrite rev_involutive. replace (Nat.min k n) with k by lia. reflexivity.
    + repeat split. rewrite Hrs, (Hlt H). reflexivity.
  - rewrite Hrs, (Heq H). reflexivity.
  - rewrite Hrs, (Hgt H). reflexivity.
Qed.

(** The tail of [rsample]: the root times the samples, plus the mean. *)
Lemma apply_root_entries
    {LL : LazyTensorLaws F L} {ML : LazyTensorMoreLaws F L}
    (d : MultivariateNormal F L) (S b : Shape) (n k : nat)
    (root : L) (x : Tensor F) :
  shape (loc d) = b ++ [n] ->
  lt_shape root = b ++ [n; k] ->
  shape x = b ++ [k; numel S] ->
  exists t, apply_root d S root x = Ok t /\ shape t = S ++ b ++ [n] /\
    forall iS ib i, valid_index S iS -> valid_index (b ++ [n]) (ib ++ [i]) ->
      entry t (iS ++ ib ++ [i])
      = fadd (fsum (map (fun c => fmul (entry (lt_dense root) (ib ++ [i; c]))
                                       (entry x (ib ++ [c; ravel S iS])))
                        (seq 0 k)))
             (entry (loc d) (ib ++ [i])).
Proof.
  intros Hl Hr Hx. unfold apply_root.
  destruct (lt_matmul_shape root x b b b n k (numel S) Hr Hx
              (broadcast_shapes_refl b)) as (r1 & E1 & S1).
  pose proof (lt_matmul_entries root x r1 b n k (numel S) Hr Hx E1) as H1.
  rewrite E1. cbn [lift bind].
  assert (S1' : shape r1 = shape (loc d) ++ [numel S]).
  { rewrite S1, Hl, <- app_assoc. reflexivity. }
  unfold tadd, tbinop, unsqueeze_last. cbn [shape]. rewrite S1'.
  rewrite broadcast_shapes_last_one. cbn [lift bind].
  match goal with |- context [permute ?r _] => set (r2 := r) end.
  destruct (permute_sample_first_entries r2 (numel S) (shape (loc d)) eq_refl)
    as (r3 & E3 & S3 & H3).
  unfold dim at 2. rewrite E3. cbn [bind].
  unfold view. rewrite S3, numel_app. cbn [numel fold_right].
  fold (numel (shape (loc d))). rewrite Nat.eqb_refl.
  eexists. split; [reflexivity|]. split; [rewrite Hl; reflexivity|].
  intros iS ib i HS Hi. cbn [entry].
  rewrite ravel_app by (apply valid_index_length; exact HS).
  rewrite unravel_cons_ravel by (rewrite Hl; exact Hi).
  rewrite H3 by (rewrite Hl; apply valid_index_length; exact Hi).
  unfold r2. cbn [entry].
  pose proof (ravel_lt S iS HS) as HJ.
  assert (Hv : valid_index (shape (loc d) ++ [numel S]) ((ib ++ [i]) ++ [ravel S iS])).
  { rewrite Hl. apply valid_index_app; [exact Hi|].
    constructor; [exact HJ|constructor]. }
  rewrite (bindex_valid_same _ _ Hv).
  rewrite bindex_app_last, Nat.eqb_refl, Hl, (bindex_valid_same _ _ Hi).
  rewrite removelast_last. f_equal.
  rewrite <- app_assoc. apply H1.
  rewrite Hl, <- !app_assoc in Hv. exact Hv.
Qed.

Lemma rsample_entries
    {LL : LazyTensorLaws F L} {ML : LazyTensorMoreLaws F L}
    (d : MultivariateNormal F L) (covar root : L) (S0 S b : Shape) (n k : nat)
    (base_samples : Tensor F) (noise : Noise F) :
  full_batch d covar b n ->
  numel (b ++ [n]) <> 0 ->
  shape base_samples = S ++ b ++ [n] ->
  lt_root covar = Some root ->
  lt_shape root = b ++ [n; k] ->
  k <= n ->
  exists t,
    rsample d S0 (Some base_samples) noise = Ok t /\
    shape t = S ++ b ++ [n] /\
    forall iS ib i, valid_index S iS -> valid_index (b ++ [n]) (ib ++ [i]) ->
      entry t (iS ++ ib ++ [i])
      = fadd (fsum (map (fun c => fmul (entry (lt_dense root) (ib ++ [i; c]))
                                       (entry base_samples (iS ++ ib ++ [c])))
                        (seq 0 k)))
             (entry (loc d) (ib ++ [i])).
Proof.
  intros (Hc & Hl & Hcs) Hnz Hs Hr Hrs Hk.
  assert (Hk1 : index_neg1 (lt_shape root) = Ok k).
  { rewrite Hrs. change (b ++ [n; k]) with (b ++ [n] ++ [k]).
    rewrite app_assoc. apply index_neg1_app. }
  destruct (rsample_on_layout_entries d covar root S0 S b n base_samples noise
              Hc Hl Hnz Hs Hr) as (layout & Hlay & Hent & ->).
  destruct (adjust_for_rank_cases root layout b n (numel S) k Hlay Hk1)
    as (Hlt & Heq & _).
  assert (Hadj : exists x, adjust_for_rank root layout = Ok x /\
                           shape x = b ++ [k; numel S] /\ entry x = entry layout).
  { destruct (Nat.lt_ge_cases k n) as [Hlt'|Hge].
    - eexists. split; [apply (Hlt Hlt')|]. split; reflexivity.
    - assert (k = n) by lia. subst k. exists layout.
      split; [apply (Heq eq_refl)|]. split; [exact Hlay|reflexivity]. }
  destruct Hadj as (x & -> & Sx & Hx). cbn [bind].
  destruct (apply_root_entries d S b n k root x Hl Hrs Sx) as (t & Et & St & Ht).
  exists t. split; [exact Et|]. split; [exact St|].
  intros iS ib i HS Hi. rewrite (Ht iS ib i HS Hi). f_equal. f_equal.
  apply map_ext_in. intros c Hc'. apply in_seq in Hc'. f_equal.
  rewrite Hx. change (ib ++ [c; ravel S iS]) with (ib ++ [c] ++ [ravel S iS]).
  rewrite app_assoc. rewrite Hent; [reflexivity|exact HS|].
  pose proof (valid_index_length _ _ Hi) as Hlen.
  rewrite !length_app in Hlen. simpl in Hlen.
  apply valid_index_app_inv in Hi as [Hib _]; [|lia].
  apply valid_index_app; [exact Hib|]. constructor; [lia|constructor].
Qed.

(** X7: for a distribution whose mean and covariance carry the batch shape
    [b], with a mean of at least one entry, base samples of shape
    [S + b + (n,)] and a root of the covariance of shape [b + (n, k)] with
    [k <= n], [rsample] returns a tensor of shape [S + b + (n,)] whose entry
    at sample index [iS], batch index [ib] and position [i] is row [i] of
    the root at [ib] times the first [k] entries of the base sample at [iS],
    [ib], plus the mean at [ib], [i].  The sample shape argument is not
    read. *)
Theorem rsample_reparameterization :
  LazyTensorLaws F L -> LazyTensorMoreLaws F L ->
  forall (d : MultivariateNormal F L) (covar root : L) (S0 S b : Shape) (n k : nat)
         (base_samples : Tensor F) (noise : Noise F),
    full_batch d covar b n ->
    numel (b ++ [n]) <> 0 ->
    shape base_samples = S ++ b ++ [n] ->
    lt_root covar = Some root ->
    lt_shape root = b ++ [n; k] ->
    k <= n ->
    exists t,
      rsample d S0 (Some base_samples) noise = Ok t /\
      shape t = S ++ b ++ [n] /\
      forall iS ib i, valid_index S iS -> valid_index (b ++ [n]) (ib ++ [i]) ->
        entry t (iS ++ ib ++ [i])
        = fadd (fsum (map (fun c => fmul (entry (lt_dense root) (ib ++ [i; c]))
                                         (entry base_samples (iS ++ ib ++ [c])))
                          (seq 0 k)))
               (entry (loc d) (ib ++ [i])).
Proof.
  intros LL ML d covar root S0 S b n k base_samples noise.
  apply rsample_entries.
Qed.

End SamplingEntries.

Section SamplingMore.

Context {F : Type} {SF : Scalar F} {L : Type} {LT : LazyTensor F L}
        {LM : LazyTensorMore F L} {TB : TorchMVN F L} {TM : TorchMVNMore F L}.

(** X8: for a distribution whose mean and covariance carry the batch shape
    [b] and a sample shape [S] without a zero size, [sample(S)] asks the
    operator for [numel(S)] zero-mean draws and returns a tensor of shape
    [S + b + (n,)] whose entry at sample index [iS] is draw number
    [ravel S iS] (row-major) plus the mean. *)
Theorem sample_is_draw_plus_mean {LL : LazyTensorLaws F L}
    (d : MultivariateNormal F L) (covar : L) (b S : Shape) (n : nat)
    (noise : Noise F) :
  full_batch d covar b n ->
  numel S <> 0 ->
  exists z t,
    lt_zero_mean_mvn_samples covar (numel S) noise = Some z /\
    sample d S None noise = Ok t /\
    shape t = S ++ b ++ [n] /\
    forall iS il, valid_index S iS -> valid_index (b ++ [n]) il ->
      entry t (iS ++ il) = fadd (entry z (ravel S iS :: il)) (entry (loc d) il).
Proof.
  intros (Hc & Hl & Hcs) HS.
  destruct (lt_zero_mean_mvn_samples_shape covar b n (numel S) noise Hcs)
    as (z & Ez & Sz).
  unfold sample, rsample. rewrite Hc. cbn [bind].
  destruct (numel S =? 0) eqn:E; [apply Nat.eqb_eq in E; contradiction|].
  rewrite Ez. cbn [lift bind].
  unfold tadd, tbinop, unsqueeze_first. cbn [shape]. rewrite Sz, Hl.
  rewrite broadcast_shapes_first_one. cbn [lift bind].
  unfold view. cbn [shape]. rewrite numel_app. cbn [numel fold_right].
  fold (numel (b ++ [n])). rewrite Nat.eqb_refl.
  exists z. eexists. split; [reflexivity|]. split; [reflexivity|].
  split; [reflexivity|].
  intros iS il HS' Hil. cbn [entry].
  rewrite ravel_app by (apply valid_index_length; exact HS').
  rewrite unravel_cons_ravel by exact Hil.
  pose proof (ravel_lt S iS HS') as HJ.
  assert (Hv : valid_index (numel S :: b ++ [n]) (ravel S iS :: il)).
  { constructor; assumption. }
  rewrite (bindex_valid_same _ _ Hv).
  rewrite bindex_cons by (symmetry; apply valid_index_length; exact Hil).
  rewrite Nat.eqb_refl. cbn [tl]. rewrite (bindex_valid_same _ _ Hil).
  reflexivity.
Qed.


(** X10: on a well-formed distribution whose mean and covariance carry the
    batch shape [b], with a mean of at least one entry and a root of the
    covariance of shape [b + (n, k)] with [k <= n], the tensor of
    [get_base_samples(S)] (shape [S + batch_shape + event_shape]) passes the
    size check of [rsample], and [rsample] on it returns a tensor of that
    same shape: the mean plus the root applied to the standard normal
    draws. *)
Theorem get_base_samples_accepted
    {LL : LazyTensorLaws F L} {ML : LazyTensorMoreLaws F L}
    (d : MultivariateNormal F L) (covar root : L) (S0 S b : Shape) (n k : nat)
    (noise noise' : Noise F) :
  well_formed d ->
  full_batch d covar b n ->
  numel (b ++ [n]) <> 0 ->
  lt_root covar = Some root ->
  lt_shape root = b ++ [n; k] ->
  k <= n ->
  exists t,
    rsample d S0 (Some (get_base_samples d S noise)) noise' = Ok t /\
    shape t = shape (get_base_samples d S noise) /\
    shape t = S ++ b ++ [n] /\
    forall iS ib i, valid_index S iS -> valid_index (b ++ [n]) (ib ++ [i]) ->
      entry t (iS ++ ib ++ [i])
      = fadd (fsum (map (fun c => fmul (entry (lt_dense root) (ib ++ [i; c]))
                                       (noise (iS ++ ib ++ [c])))
                        (seq 0 k)))
             (entry (loc d) (ib ++ [i])).
Proof.
  intros Hwf Hfb Hnz Hr Hrs Hk.
  destruct (full_batch_shape d covar b n Hwf Hfb) as [Hb He].
  assert (Hs : shape (get_base_samples d S noise) = S ++ b ++ [n]).
  { unfold get_base_samples, _extended_shape. cbn [shape]. rewrite Hb, He.
    reflexivity. }
  destruct (rsample_entries d covar root S0 S b n k (get_base_samples d S noise)
              noise' Hfb Hnz Hs Hr Hrs Hk) as (t & Et & St & Ht).
  exists t. split; [exact Et|]. split; [congruence|]. split; [exact St|].
  exact Ht.
Qed.

End SamplingMore.

(** ** Addition, division and the store of instances *)

Section Addition.

Context {F : Type} {SF : Scalar F} {FR : FloatRange F} {L : Type}
        {LT : LazyTensor F L} {LM : LazyTensorMore F L} {TB : TorchMVN F L}.

Lemma new_instance_full_batch (h : Heap) (m : Tensor F) (c : L) (b : Shape) (n : nat) :
  shape m = b ++ [n] ->
  lt_shape c = b ++ [n; n] ->
  new_instance h m (LazyCov c)
  = Ok (length h, h ++ [mkMVN true m (Some c) None false b [n]]).
Proof.
  intros Hm Hc. unfold new_instance, __init__. rewrite Hm, Hc.
  rewrite drop_last2_app. unfold drop_last1. rewrite removelast_last.
  unfold _mul_broadcast_shape. rewrite broadcast_shapes_refl. cbn [lift bind].
  rewrite lastn_1_app. reflexivity.
Qed.

Lemma new_instance_extends (h h' : Heap) (m : Tensor F) (c : Covariance F L) (r : Ref) :
  new_instance h m c = Ok (r, h') ->
  r = length h /\ exists d, h' = h ++ [d].
Proof.
  unfold new_instance. destruct (__init__ m c false) as [d|e]; cbn [bind];
    [|discriminate].
  intro H. injection H as <- <-. split; [reflexivity|]. exists d. reflexivity.
Qed.

(** X11: [A + B] for two instances of the store whose means and covariances
    carry the same batch shape [b]: a new structured instance is appended to
    the store and its reference returned; its mean is the entrywise sum of
    the two means and its covariance is the operator sum, whose matrix is the
    entrywise sum of the two covariance matrices. *)
Theorem add_two_instances {ML : LazyTensorMoreLaws F L}
    (h : Heap) (self other : Ref) (A B : MultivariateNormal F L)
    (cA cB : L) (b : Shape) (n : nat) :
  nth_error h self = Some A ->
  nth_error h other = Some B ->
  full_batch A cA b n ->
  full_batch B cB b n ->
  exists m c,
    __add__ h self (PyMVN other)
    = Ok (length h, h ++ [mkMVN true m (Some c) None false b [n]]) /\
    shape m = b ++ [n] /\
    (forall idx, valid_index (b ++ [n]) idx ->
       entry m idx = fadd (entry (loc A) idx) (entry (loc B) idx)) /\
    lt_add cA cB = Some c /\
    lt_shape c = b ++ [n; n] /\
    (forall idx, valid_index (b ++ [n; n]) idx ->
       entry (lt_dense c) idx
       = fadd (entry (lt_dense cA) idx) (entry (lt_dense cB) idx)).
Proof.
  intros HA HB (HcA & HlA & HsA) (HcB & HlB & HsB).
  destruct (tbinop_same_shape fadd (loc A) (loc B)) as (m & Em & Sm & Hm);
    [congruence|].
  destruct (lt_add_ok cA cB) as (c & Ec & Sc & Hc); [congruence|].
  exists m, c. split; [|split; [congruence|split; [|split; [exact Ec|split]]]].
  - unfold __add__, deref. rewrite HA. cbn [lift bind]. rewrite HB. cbn [lift bind].
    unfold mean, tadd. rewrite Em. cbn [bind]. rewrite HcA, HcB. cbn [bind].
    rewrite Ec. cbn [lift bind].
    apply new_instance_full_batch; congruence.
  - intros idx Hv. apply Hm. rewrite HlA. exact Hv.
  - congruence.
  - intros idx Hv. apply Hc. rewrite HsA. exact Hv.
Qed.



Lemma add_extends (h h' : Heap) (self r : Ref) (other : PyVal F) :
  __add__ h self other = Ok (r, h') ->
  r = length h /\ exists d, h' = h ++ [d].
Proof.
  unfold __add__. destruct (deref h self) as [d|e]; cbn [bind]; [|discriminate].
  destruct other as [z|bb|x|t|r0|]; try discriminate.
  1-3: destruct (torch_number _); cbn [bind]; [|discriminate];
       destruct (tadd _ _); cbn [bind]; [|discriminate];
       destruct (lazy_covariance_matrix d); cbn [bind]; [|discriminate];
       apply new_instance_extends.
  destruct (deref h r0) as [o|e]; cbn [bind]; [|discriminate].
  destruct (tadd _ _); cbn [bind]; [|discriminate].
  destruct (lazy_covariance_matrix d); cbn [bind]; [|discriminate].
  destruct (lazy_covariance_matrix o); cbn [bind]; [|discriminate].
  destruct (lt_add _ _); cbn [lift bind]; [|discriminate].
  apply new_instance_extends.
Qed.

Lemma mul_extends (h h' : Heap) (self r : Ref) (other : PyVal F) :
  __mul__ h self other = Ok (r, h') ->
  (r = self /\ h' = h) \/ (r = length h /\ exists d, h' = h ++ [d]).
Proof.
  unfold __mul__. destruct (negb (is_scalar other)); [discriminate|].
  destruct (py_eq_int other 1) as [[|]|e]; cbn [bind]; [| |discriminate].
  - intro H. injection H as <- <-. left. split; reflexivity.
  - destruct (deref h self) as [d|e]; cbn [bind]; [|discriminate].
    destruct (torch_number other); cbn [bind]; [|discriminate]. cbv zeta.
    destruct (lazy_covariance_matrix d); cbn [bind]; [|discriminate].
    destruct (py_square other); cbn [bind]; [|discriminate].
    intro H. right. apply (new_instance_extends _ _ _ _ _ H).
Qed.

(** X13: the arithmetic methods [__add__], [__radd__], [__mul__] and
    [__truediv__] never change an instance: when one of them returns, the
    store is the one it was given and the result is [self], or the store has
    one new instance at its end and the result is its reference; every
    reference reads the same instance as before. *)
Theorem arithmetic_never_changes_instances (h h' : Heap) (self r : Ref) (other : PyVal F) :
  __add__ h self other = Ok (r, h') \/ __radd__ h self other = Ok (r, h') \/
  __mul__ h self other = Ok (r, h') \/ __truediv__ h self other = Ok (r, h') ->
  ((r = self /\ h' = h) \/ (r = length h /\ exists d, h' = h ++ [d])) /\
  (forall (r0 : Ref) (A : MultivariateNormal F L),
     nth_error h r0 = Some A -> nth_error h' r0 = Some A).
Proof.
  intro H.
  assert (Hs : (r = self /\ h' = h) \/ (r = length h /\ exists d, h' = h ++ [d])).
  { destruct H as [H|[H|[H|H]]].
    - right. apply (add_extends _ _ _ _ _ H).
    - unfold __radd__ in H.
      destruct (py_eq_int other 0) as [[|]|e]; cbn [bind] in H; [| |discriminate].
      + injection H as <- <-. left. split; reflexivity.
      + right. apply (add_extends _ _ _ _ _ H).
    - apply (mul_extends _ _ _ _ _ H).
    - unfold __truediv__ in H.
      destruct (py_one_over other) as [v|e]; cbn [bind] in H; [|discriminate].
      apply (mul_extends _ _ _ _ _ H). }
  split; [exact Hs|].
  intros r0 A Hr0. destruct Hs as [[_ ->]|[_ [d ->]]]; [exact Hr0|].
  rewrite nth_error_app1; [exact Hr0|].
  apply nth_error_Some. congruence.
Qed.

Lemma mul_not_zero_division (h : Heap) (self : Ref) (other : PyVal F) :
  is_scalar other = true -> __mul__ h self other <> Err ZeroDivisionError.
Proof.
  intros Hsc. unfold __mul__. rewrite Hsc. cbn [negb].
  destruct (scalar_py_eq_int other 1 Hsc) as (bb & ->). cbn [bind].
  destruct bb; [discriminate|].
  unfold deref. destruct (nth_error h self) as [d|]; cbn [lift bind]; [|discriminate].
  assert (Hn : torch_number other <> Err ZeroDivisionError).
  { destruct other as [z| | | | |]; try discriminate.
    simpl. destruct (fits_int64 z); discriminate. }
  destruct (torch_number other) as [x|e]; cbn [bind];
    [|intro H; apply Hn; injection H as ->; reflexivity]. cbv zeta.
  assert (Hl : lazy_covariance_matrix d <> Err ZeroDivisionError).
  { unfold lazy_covariance_matrix.
    destruct (_islazy d);
      [destruct (_covar d)|destruct (covariance_param d)]; discriminate. }
  destruct (lazy_covariance_matrix d) as [c|e]; cbn [bind];
    [|intro H; apply Hl; injection H as ->; reflexivity].
  assert (Hq : py_square other <> Err ZeroDivisionError).
  { destruct other as [z|b0|y| | |]; try discriminate.
    simpl. destruct (square_overflows y); discriminate. }
  destruct (py_square other) as [sq|e]; cbn [bind];
    [|intro H; apply Hq; injection H as ->; reflexivity].
  unfold new_instance, __init__, _mul_broadcast_shape.
  destruct (broadcast_shapes _ _); cbn [lift bind]; discriminate.
Qed.

(** X14: for an int, bool or float [c], [A / c] raises [ZeroDivisionError]
    exactly when [c] compares equal to 0; [A / tensor] raises "Can only
    multiply by scalars", and dividing by an instance or by an object without
    arithmetic raises [TypeError]. *)
Theorem truediv_zero_division (h : Heap) (self : Ref) (other : PyVal F) :
  (is_scalar other = true ->
   (__truediv__ h self other = Err ZeroDivisionError <->
    py_eq_int other 0 = Ok true)) /\
  (forall t, other = PyTensor t ->
     __truediv__ h self other = Err OnlyScalarsError) /\
  ((other = PyOther \/ exists r, other = PyMVN r) ->
   __truediv__ h self other = Err TypeError).
Proof.
  split; [|split].
  - intro Hsc. unfold __truediv__.
    destruct other as [z|bb|x| | |]; try discriminate; cbn [py_one_over py_eq_int].
    + destruct (z =? 0)%Z; cbn [bind].
      * split; reflexivity.
      * split; [|discriminate]. intro H. exfalso.
        exact (mul_not_zero_division h self (PyFloat _) eq_refl H).
    + destruct bb; cbn [bind int_of_bool].
      * split; [|discriminate]. intro H. exfalso.
        exact (mul_not_zero_division h self (PyFloat _) eq_refl H).
      * split; reflexivity.
    + change (@fzero F SF) with (f_of_Z 0).
      destruct (feqb x (f_of_Z 0)); cbn [bind].
      * split; reflexivity.
      * split; [|discriminate]. intro H. exfalso.
        exact (mul_not_zero_division h self (PyFloat _) eq_refl H).
  - intros t ->. reflexivity.
  - intros [->|[r ->]]; reflexivity.
Qed.

End Addition.

(** ** [log_prob] on an empty covariance batch *)

Lemma zip_floordiv_cases (a b : list nat) :
  length a = length b ->
  (In 0 b /\ zip_floordiv a b = Err ZeroDivisionError) \/
  (~ In 0 b /\ zip_floordiv a b = Ok (zip_with Nat.div a b)).
Proof.
  revert b. induction a as [|x a IH]; intros [|y b] H; try discriminate.
  - right. split; [intros []|reflexivity].
  - simpl in H. cbn [zip_floordiv zip_with]. unfold floordiv.
    destruct (y =? 0) eqn:E.
    + apply Nat.eqb_eq in E. subst y. left. split; [left; reflexivity|reflexivity].
    + apply Nat.eqb_neq in E. cbn [bind].
      destruct (IH b) as [[Hin ->]|[Hnin ->]]; [lia| |]; cbn [bind].
      * left. split; [right; exact Hin|reflexivity].
      * right. split; [|reflexivity]. intros [H0|H0]; [lia|contradiction].
Qed.

Section EmptyBatch.

Context {F : Type} {SF : Scalar F} {L : Type} {LT : LazyTensor F L}.

(** X15: in the block of [log_prob] that tiles the covariance (batch shapes
    differ, and the covariance has no more batch sizes than the difference),
    the repeat factors [diff_size // covar_size] raise [ZeroDivisionError]
    exactly when the batch shape of the covariance contains a 0. *)
Theorem match_batch_shape_zero_division
    (diff : Tensor F) (covar : L) (cb : Shape) (n m : nat) :
  lt_shape covar = cb ++ [n; m] ->
  drop_last1 (shape diff) <> cb ->
  length cb <= length (drop_last1 (shape diff)) ->
  (match_batch_shape diff covar = Err ZeroDivisionError <-> In 0 cb).
Proof.
  intros Hs Hne Hle. unfold match_batch_shape.
  rewrite Hs, drop_last2_app.
  apply shape_eqb_neq in Hne as Hne'. rewrite Hne'. cbn [negb].
  destruct (length (drop_last1 (shape diff)) <? length cb) eqn:E;
    [apply Nat.ltb_lt in E; lia|].
  set (padded := repeat 1 _ ++ cb).
  assert (Hin : In 0 padded <-> In 0 cb).
  { unfold padded. rewrite in_app_iff. split; [|auto].
    intros [H|H]; [apply repeat_spec in H; discriminate|exact H]. }
  assert (Hlen : length (drop_last1 (shape diff)) = length padded).
  { unfold padded, dim, drop_last1 in *.
    rewrite length_app, repeat_length, length_app.
    rewrite removelast_length in *. cbn [length].
    destruct (shape diff) as [|x s]; cbn [length] in *; [|lia].
    destruct cb; [contradiction|simpl in Hle; lia]. }
  destruct (zip_floordiv_cases _ _ Hlen) as [[H0 ->]|[H0 ->]]; cbn [bind].
  - split; [intros _; apply Hin; exact H0|reflexivity].
  - split; [|intro H; exfalso; apply H0, Hin, H].
    destruct (lt_repeat covar _); cbn [lift bind]; discriminate.
Qed.

End EmptyBatch.

(** ** The terms of the ELBO *)

Section ObjectiveMore.

Context {F : Type} {SF : Scalar F} {L : Type} {LT : LazyTensor F L}
        {TB : TorchMVN F L}.

Lemma tadd__shape (a b r : Tensor F) : tadd_ a b = Ok r -> shape r = shape a.
Proof.
  unfold tadd_. destruct (broadcast_shapes (shape a) (shape b)); cbn [lift bind];
    [|discriminate].
  destruct (shape_eqb _ _); [|discriminate].
  intro H. injection H as <-. reflexivity.
Qed.

Lemma accumulate_shape (xs : list (Tensor F)) (acc r : Tensor F) :
  accumulate acc xs = Ok r -> shape r = shape acc.
Proof.
  revert acc. induction xs as [|x xs IH]; intros acc H.
  - injection H as <-. reflexivity.
  - cbn [accumulate] in H. destruct (tadd_ acc x) as [acc'|e] eqn:E;
      cbn [bind] in H; [|discriminate].
    rewrite (IH _ H). apply (tadd__shape _ _ _ E).
Qed.

(** X16: when [forward] returns a tuple, its first term is the likelihood
    term divided by the number of event entries, and the prior term and the
    added-loss term (if present) have exactly the shape of the likelihood
    term. *)
Theorem forward_terms_share_shape
    (self : ApproximateMarginalLogLikelihood F L)
    (dist : MultivariateNormal F L) (target ll : Tensor F) (ts : list (Tensor F)) :
  _log_likelihood_term self dist target = Ok ll ->
  forward self dist target = Ok (Terms ts) ->
  exists kl log_prior rest,
    ts = tdiv ll (f_of_Z (Z.of_nat (numel (event_shape dist))))
         :: kl :: log_prior :: rest /\
    shape log_prior = shape ll /\
    Forall (fun t => shape t = shape ll) rest /\
    length rest <= 1.
Proof.
  intros Hll. unfold forward. rewrite Hll. cbn [bind].
  destruct (_kl_divergence self) as [kl|]; cbn [bind]; [|discriminate].
  destruct (feqb (beta self) fzero); cbn [bind]; [discriminate|].
  match goal with
  | |- context [bind ?m _] => destruct m as [kl'|]; cbn [bind]; [|discriminate]
  end.
  destruct (accumulate _ (added_loss_terms (model self))) as [al|] eqn:Eal;
    cbn [bind]; [|discriminate].
  destruct (accumulate _ (map _ (named_priors self))) as [lp|] eqn:Elp;
    cbn [bind]; [|discriminate].
  apply accumulate_shape in Eal, Elp. cbn [shape zeros_like tdiv] in Eal, Elp.
  destruct (combine_terms self).
  - destruct (tsub _ _); cbn [bind]; [|discriminate].
    destruct (tadd _ _); cbn [bind]; [|discriminate].
    destruct (tsub _ _); cbn [bind]; discriminate.
  - destruct (added_loss_terms (model self)); intro H; injection H as <-;
      do 3 eexists; (split; [reflexivity|]); cbn [shape tdiv length];
      repeat split; auto.
Qed.

End ObjectiveMore.

Section Elbo.

Context {L : Type} {LT : LazyTensor R L} {TB : TorchMVN R L}.

Open Scope R_scope.


End Elbo.

(** ** The memoised Cholesky factor *)

Section ScaleTril.

Context {F : Type} {SF : Scalar F} {L : Type} {LT : LazyTensor F L}
        {LM : LazyTensorMore F L} {TB : TorchMVN F L}.

(** X18: on an instance built by the structured constructor, the first read
    of [_unbroadcasted_scale_tril] returns the evaluated Cholesky factor of
    the covariance operator and stores it; a second read returns the stored
    value and changes nothing; assigning the property raises
    [NotImplementedError], before and after the read. *)
Theorem scale_tril_is_memoised
    (mean : Tensor F) (l chol : L) (self : InstanceState F L) :
  init_structured mean l false = Ok self ->
  lt_cholesky l = Some chol ->
  exists self',
    _unbroadcasted_scale_tril self = Ok (Some (delazify chol), self') /\
    fields self' = fields self /\
    _unbroadcasted_scale_tril self' = Ok (Some (delazify chol), self') /\
    forall ust,
      _unbroadcasted_scale_tril_setter self ust = Err NotImplementedError /\
      _unbroadcasted_scale_tril_setter self' ust = Err NotImplementedError.
Proof.
  unfold init_structured. intros H Hch.
  destruct (__init__ mean (LazyCov l) false) as [d|e] eqn:E; cbn [bind] in H;
    [|discriminate].
  injection H as <-.
  apply init_lazy_well_formed in E as (Hlazy & Hcov & _ & _).
  eexists. split; [|split; [|split]].
  - unfold _unbroadcasted_scale_tril. cbn [fields __unbroadcasted_scale_tril].
    rewrite Hlazy. cbn [lift bind]. unfold lazy_covariance_matrix.
    rewrite Hlazy, Hcov. cbn [lift bind]. rewrite Hch. cbn [lift bind].
    reflexivity.
  - reflexivity.
  - unfold _unbroadcasted_scale_tril. cbn [fields __unbroadcasted_scale_tril].
    rewrite Hlazy. reflexivity.
  - intro ust. unfold _unbroadcasted_scale_tril_setter. cbn [fields].
    rewrite Hlazy. split; reflexivity.
Qed.

End ScaleTril.

(** ** The dense operator meets the further contracts *)

Lemma DenseOperator_more_laws {F : Type} {SF : Scalar F} :
  @LazyTensorMoreLaws F SF (Tensor F) DenseOperator DenseOperatorMore.
Proof.
  split; simpl.
  - intros l s H. unfold texpand. rewrite H, shape_eqb_refl. simpl.
    eexists. split; [reflexivity|]. split; reflexivity.
  - intros l b n Hs. unfold dense_diag.
    rewrite Hs, rev_app_distr. simpl. rewrite Nat.eqb_refl, rev_involutive.
    eexists. split; [reflexivity|]. split; [reflexivity|].
    intros ib i _. cbn [entry]. rewrite last_last, <- app_assoc. reflexivity.
  - intros a b Hs.
    destruct (tbinop_same_shape fadd a b Hs) as (t & E & St & Ht).
    exists t. unfold tadd. rewrite E. simpl. repeat split; assumption.
  - intros r x t b n m k Hr Hx E ib i j Hv. unfold dense_matmul in E.
    rewrite Hr, Hx, !rev_app_distr in E. simpl in E.
    rewrite Nat.eqb_refl, !rev_involutive, broadcast_shapes_refl in E.
    injection E as <-. cbn [entry].
    pose proof (valid_index_length _ _ Hv) as Hlen.
    rewrite !length_app in Hlen. simpl in Hlen.
    apply valid_index_app_inv in Hv as [Hib _]; [|lia].
    change (removelast (removelast (ib ++ [i; j]))) with (drop_last2 (ib ++ [i; j])).
    rewrite drop_last2_app.
    change (ib ++ [i; j]) with (ib ++ [i] ++ [j]).
    rewrite app_assoc, removelast_last, !last_last.
    rewrite (bindex_valid_same _ _ Hib). reflexivity.
Qed.

(** ** The further properties on concrete inputs *)

Section ConcreteMore.

Import Examples.
Import MoreExamples.
Open Scope R_scope.

Ltac eval_entries :=
  cbn; unfold fone, fzero; cbn.

Lemma well_formed_batch23 : well_formed batch23.
Proof. exists (eye [2%nat] 3). repeat split. Qed.

Lemma full_batch_batch23 : full_batch batch23 (eye [2%nat] 3) [2%nat] 3.
Proof. repeat split. Qed.

Lemma well_formed_std2 : well_formed std2.
Proof. exists (eye [] 2). repeat split. Qed.

Lemma full_batch_std2 : full_batch std2 (eye [] 2) [] 2.
Proof. repeat split. Qed.

Lemma full_batch_p_std : full_batch p_std (eye [] 1) [] 1.
Proof. repeat split. Qed.

Lemma full_batch_q_shifted : full_batch q_shifted (eye [] 1) [] 1.
Proof. repeat split. Qed.

(** The variances of a batch of two three-dimensional standard normals. *)
Lemma variance_is_covariance_diagonal_witness :
  exists v, variance batch23 = Ok v /\ shape v = [2; 3]%nat /\
            entry v [1; 2]%nat = 1.
Proof.
  destruct (variance_is_covariance_diagonal DenseOperator_more_laws batch23
              (eye [2%nat] 3) [2%nat] [2%nat] 3 eq_refl well_formed_batch23
              eq_refl eq_refl eq_refl) as (v & E & _ & S & H).
  exists v. split; [exact E|]. split; [exact S|].
  apply (H [1%nat] 2%nat).
  constructor; [lia|constructor; [lia|constructor]].
Defined.

(** The bounds of the batch of standard normals: [-2] and [2]. *)
Lemma confidence_region_two_stddev_witness :
  exists lower upper,
    confidence_region batch23 = Ok (lower, upper) /\
    shape lower = [2; 3]%nat /\ shape upper = [2; 3]%nat /\
    entry lower [1; 2]%nat = -2 /\ entry upper [1; 2]%nat = 2 /\
    entry lower [1; 2]%nat <= 0 <= entry upper [1; 2]%nat.
Proof.
  destruct (confidence_region_two_stddev (ML := DenseOperator_more_laws) batch23
              (eye [2%nat] 3) [2%nat] [2%nat] 3 eq_refl well_formed_batch23
              eq_refl eq_refl eq_refl) as (lo & up & E & Sl & Su & H).
  assert (Hv : valid_index (batch_shape batch23 ++ [3%nat]) ([1%nat] ++ [2%nat]))
    by (constructor; [lia|constructor; [lia|constructor]]).
  assert (Hpos : 0 <= entry (lt_dense (eye [2%nat] 3))
                        (bindex [2%nat] [1%nat] ++ [2; 2]%nat))
    by (eval_entries; lra).
  destruct (H [1%nat] 2%nat Hv Hpos) as (Hl & Hu & Hle).
  exists lo, up. split; [exact E|]. split; [exact Sl|]. split; [exact Su|].
  cbn [app] in Hl, Hu, Hle.
  assert (Hs : sqrt (entry (lt_dense (eye [2%nat] 3))
                       (bindex [2%nat] [1%nat] ++ [2; 2]%nat)) = 1)
    by (eval_entries; apply sqrt_1).
  rewrite Hs in Hl, Hu.
  assert (Hm : entry (loc batch23) (bindex (shape (loc batch23)) [1; 2]%nat) = 0)
    by reflexivity.
  rewrite Hm in Hl, Hu, Hle.
  split; [rewrite Hl; lra|]. split; [rewrite Hu; lra|]. exact Hle.
Defined.

(** A batch shape of one size: [task_dim = 2] is refused, [task_dim = -1]
    moves the batch dimension behind the event dimension. *)
Lemma to_multitask_from_batch_value_error_witness :
  to_multitask_from_batch batch23 2 = Err ValueError.
Proof.
  apply (to_multitask_from_batch_value_error batch23 2). right. simpl. lia.
Defined.


(** Three tasks sharing the two-dimensional standard normal. *)
Lemma to_multitask_shares_mean_and_covariance_witness :
  exists m tiled,
    to_multitask std2 3
    = Ok {| mt_mean := m;
            mt_covariance_matrix :=
              {| base_lazy_tensor := tiled; block_dim := 0 |} |} /\
    shape m = [2; 3]%nat /\
    lt_shape tiled = [3; 2; 2]%nat.
Proof.
  destruct (to_multitask_shares_mean_and_covariance (ML := DenseOperator_more_laws)
              std2 (eye [] 2) [] 2 3 eq_refl well_formed_std2 full_batch_std2)
    as (m & tiled & E & S & _ & St & _).
  exists m, tiled. split; [exact E|]. split; [exact S|exact St].
Defined.

(** The standard normal built from two tensors. *)
Lemma to_multitask_dense_mode_raises_witness :
  exists (d : MVN) (e : PyError),
    __init__ (vector [0]) (DenseCov (eye [] 1)) false = Ok d /\
    to_multitask d 2 = Err e.
Proof.
  assert (Hd : exists d : MVN,
             __init__ (vector [0]) (DenseCov (eye [] 1)) false = Ok d)
    by (eexists; reflexivity).
  destruct Hd as (d & Hd).
  destruct (to_multitask_dense_mode_raises (vector [0]) (eye [] 1) false d 2 Hd)
    as (e & He).
  exists d, e. split; [exact Hd|exact He].
Defined.

(** Three base samples for [N([0, 0], I)]. *)
Lemma rsample_reparameterization_witness :
  exists t,
    rsample std2 [] (Some (full [3; 2]%nat 1)) no_noise = Ok t /\
    shape t = [3; 2]%nat.
Proof.
  assert (Hnz : numel ([] ++ [2%nat]) <> 0%nat) by discriminate.
  assert (Hr : exists root, lt_root (eye [] 2) = Some root /\
                            lt_shape root = [] ++ [2; 2]%nat)
    by (eexists; split; reflexivity).
  destruct Hr as (root & Hr & Hs).
  destruct (rsample_reparameterization DenseOperator_laws DenseOperator_more_laws
              std2 (eye [] 2) root [] [3%nat] [] 2 2 (full [3; 2]%nat 1) no_noise
              full_batch_std2 Hnz eq_refl Hr Hs (le_n 2)) as (t & E & S & _).
  exists t. split; [exact E|exact S].
Defined.

(** Three base samples for two-dimensional normals: under a root of rank 1
    the second row of the samples is dropped and the draw goes on; under a
    root of rank 2 all rows are used; under a root of rank 3 the draw is
    refused. *)
Lemma rank_adjustment_witness :
  (exists root layout truncated t,
     lt_root (LowRank (full [2; 1]%nat 1)) = Some root /\
     shape layout = [2; 3]%nat /\
     slice_rows 1 layout = Ok truncated /\
     shape truncated = [1; 3]%nat /\
     entry truncated = entry layout /\
     rsample rank1 [] (Some (full [3; 2]%nat 1)) no_noise
     = apply_root rank1 [3%nat] root truncated /\
     apply_root rank1 [3%nat] root truncated = Ok t /\
     shape t = [3; 2]%nat) /\
  (exists root layout,
     lt_root (eye [] 2) = Some root /\
     shape layout = [2; 3]%nat /\
     rsample std2 [] (Some (full [3; 2]%nat 1)) no_noise
     = apply_root std2 [3%nat] root layout) /\
  rsample rank3 [] (Some (full [3; 2]%nat 1)) no_noise
  = Err IncompatibleDimensionError.
Proof.
  assert (Hnz : numel ([] ++ [2%nat]) <> 0%nat) by discriminate.
  split; [|split].
  - assert (Hr : lt_root (LowRank (full [2; 1]%nat 1) : RootOperator R)
                 = Some (Dense (full [2; 1]%nat 1))) by reflexivity.
    assert (Hk : index_neg1 (lt_shape (Dense (full [2; 1]%nat 1) : RootOperator R))
                 = Ok 1%nat) by reflexivity.
    destruct (rank_adjustment rank1 (LowRank (full [2; 1]%nat 1))
                (Dense (full [2; 1]%nat 1)) [] [3%nat] [] 2 1
                (full [3; 2]%nat 1) no_noise eq_refl eq_refl Hnz eq_refl Hr Hk)
      as (layout & Sl & _ & Hlt & _ & _).
    destruct (Hlt (le_n 2)) as (truncated & Et & St & Ht & Hrs).
    assert (Hres : exists t, rsample rank1 [] (Some (full [3; 2]%nat 1)) no_noise
                             = Ok t /\ shape t = [3; 2]%nat)
      by (eexists; split; reflexivity).
    destruct Hres as (t & Hres & Sres).
    exists (Dense (full [2; 1]%nat 1)), layout, truncated, t.
    split; [reflexivity|]. split; [exact Sl|]. split; [exact Et|].
    split; [exact St|]. split; [exact Ht|]. split; [exact Hrs|].
    split; [rewrite <- Hrs; exact Hres|exact Sres].
  - assert (Hr : exists root, lt_root (eye [] 2) = Some root /\
                              index_neg1 (lt_shape root) = Ok 2%nat)
      by (eexists; split; reflexivity).
    destruct Hr as (root & Hr & Hk).
    destruct (rank_adjustment std2 (eye [] 2) root [] [3%nat] [] 2 2
                (full [3; 2]%nat 1) no_noise eq_refl eq_refl Hnz eq_refl Hr Hk)
      as (layout & Sl & _ & _ & Heq & _).
    exists root, layout. split; [exact Hr|]. split; [exact Sl|].
    exact (Heq eq_refl).
  - assert (Hr : lt_root (LowRank (full [2; 3]%nat 1) : RootOperator R)
                 = Some (Dense (full [2; 3]%nat 1))) by reflexivity.
    assert (Hk : index_neg1 (lt_shape (Dense (full [2; 3]%nat 1) : RootOperator R))
                 = Ok 3%nat) by reflexivity.
    destruct (rank_adjustment rank3 (LowRank (full [2; 3]%nat 1))
                (Dense (full [2; 3]%nat 1)) [] [3%nat] [] 2 3
                (full [3; 2]%nat 1) no_noise eq_refl eq_refl Hnz eq_refl Hr Hk)
      as (layout & _ & _ & _ & _ & Hgt).
    apply Hgt. lia.
Defined.

(** Five draws from the batch of two three-dimensional normals. *)
Lemma sample_is_draw_plus_mean_witness :
  exists z t,
    lt_zero_mean_mvn_samples (eye [2%nat] 3) 5 no_noise = Some z /\
    sample batch23 [5%nat] None no_noise = Ok t /\
    shape t = [5; 2; 3]%nat.
Proof.
  assert (HS : numel [5%nat] <> 0%nat) by discriminate.
  destruct (sample_is_draw_plus_mean (LL := DenseOperator_laws) batch23
              (eye [2%nat] 3) [2%nat] [5%nat] 3 no_noise full_batch_batch23 HS)
    as (z & t & Ez & Et & St & _).
  exists z, t. split; [exact Ez|]. split; [exact Et|exact St].
Defined.


Lemma get_base_samples_accepted_witness :
  exists t,
    rsample batch23 [] (Some (get_base_samples batch23 [5%nat] no_noise)) no_noise
    = Ok t /\
    shape t = [5; 2; 3]%nat.
Proof.
  assert (Hnz : numel ([2%nat] ++ [3%nat]) <> 0%nat) by discriminate.
  assert (Hr : exists root, lt_root (eye [2%nat] 3) = Some root /\
                            lt_shape root = [2%nat] ++ [3; 3]%nat)
    by (eexists; split; reflexivity).
  destruct Hr as (root & Hr & Hs).
  destruct (get_base_samples_accepted (LL := DenseOperator_laws)
              (ML := DenseOperator_more_laws)
              batch23 (eye [2%nat] 3) root [] [5%nat] [2%nat] 3 3
              no_noise no_noise well_formed_batch23 full_batch_batch23 Hnz Hr Hs
              (le_n 3)) as (t & E & _ & S & _).
  exists t. split; [exact E|exact S].
Defined.

(** [N([0], [[1]]) + N([1], [[1]])]. *)
Lemma add_two_instances_witness :
  exists m c,
    __add__ [p_std; q_shifted] 0%nat (PyMVN 1%nat)
    = Ok (2%nat, [p_std; q_shifted;
                  mkMVN true m (Some c) None false [] [1%nat]]) /\
    shape m = [1%nat] /\
    entry m [0%nat] = 0 + 1.
Proof.
  destruct (add_two_instances (ML := DenseOperator_more_laws)
              [p_std; q_shifted] 0%nat 1%nat p_std q_shifted
              (eye [] 1) (eye [] 1) [] 1 eq_refl eq_refl
              full_batch_p_std full_batch_q_shifted)
    as (m & c & E & S & H & _).
  exists m, c. split; [exact E|]. split; [exact S|].
  apply (H [0%nat]). constructor; [lia|constructor].
Defined.


(** Doubling the standard normal leaves it in the store. *)
Lemma arithmetic_never_changes_instances_witness :
  exists r h',
    __mul__ [p_std] 0%nat (PyInt 2) = Ok (r, h') /\
    nth_error h' 0%nat = Some p_std.
Proof.
  assert (H : exists r h', __mul__ [p_std] 0%nat (PyInt 2) = Ok (r, h'))
    by (do 2 eexists; reflexivity).
  destruct H as (r & h' & H).
  exists r, h'. split; [exact H|].
  apply (arithmetic_never_changes_instances [p_std] h' 0%nat r (PyInt 2)
           (or_intror (or_intror (or_introl H)))).
  reflexivity.
Defined.

Lemma truediv_zero_division_witness :
  __truediv__ [p_std] 0%nat (PyInt 0) = Err ZeroDivisionError.
Proof.
  apply (proj1 (truediv_zero_division [p_std] 0%nat (PyInt 0)) eq_refl).
  reflexivity.
Defined.

(** A difference of batch shape [4] against a covariance of batch shape [0]. *)
Lemma match_batch_shape_zero_division_witness :
  match_batch_shape (full [4; 2]%nat 0) (eye [0%nat] 2) = Err ZeroDivisionError.
Proof.
  assert (Hne : drop_last1 (shape (full [4; 2]%nat 0)) <> [0%nat]) by discriminate.
  assert (Hle : (length [0%nat] <= length (drop_last1 (shape (full [4; 2]%nat 0))))%nat)
    by (simpl; lia).
  assert (Hs : lt_shape (eye [0%nat] 2 : Tensor R) = [0%nat] ++ [2; 2]%nat)
    by reflexivity.
  apply (match_batch_shape_zero_division (full [4; 2]%nat 0) (eye [0%nat] 2)
           [0%nat] 2 2 Hs Hne Hle).
  left. reflexivity.
Defined.

(** The objective with one prior, uncombined. *)
Lemma forward_terms_share_shape_witness :
  exists kl log_prior,
    forward (elbo false) p_std (vector [0])
    = Ok (Terms [tdiv (scalar_tensor 3) (f_of_Z (Z.of_nat 1)); kl; log_prior]) /\
    shape log_prior = [].
Proof.
  assert (Hb : Req_bool 1 0 = false) by (apply Req_bool_false; lra).
  assert (H : exists ts, forward (elbo false) p_std (vector [0]) = Ok (Terms ts)).
  { eexists. unfold forward. cbn. rewrite Hb. cbn. reflexivity. }
  destruct H as (ts & H).
  destruct (forward_terms_share_shape (elbo false) p_std (vector [0])
              (scalar_tensor 3) ts eq_refl H)
    as (kl & lp & rest & Hts & S & _ & _).
  subst ts.
  assert (rest = []) as ->.
  { revert H. unfold forward. cbn. rewrite Hb. cbn. intro H.
    congruence. }
  exists kl, lp. split; [exact H|exact S].
Defined.


(** The Cholesky factor of the standard normal, read twice. *)
Lemma scale_tril_is_memoised_witness :
  exists self self' ust,
    init_structured (vector [0]) (eye [] 1) false = Ok self /\
    _unbroadcasted_scale_tril self = Ok (Some ust, self') /\
    _unbroadcasted_scale_tril self' = Ok (Some ust, self').
Proof.
  assert (Hi : exists self : InstanceState R (Tensor R),
             init_structured (vector [0]) (eye [] 1) false = Ok self)
    by (eexists; reflexivity).
  destruct Hi as (self & Hi).
  assert (Hc : exists chol : Tensor R, lt_cholesky (eye [] 1) = Some chol)
    by (eexists; reflexivity).
  destruct Hc as (chol & Hc).
  destruct (scale_tril_is_memoised (vector [0]) (eye [] 1) chol self Hi Hc)
    as (self' & E1 & _ & E2 & _).
  exists self, self', (delazify chol). split; [exact Hi|]. split; [exact E1|exact E2].
Defined.

End ConcreteMore.
